(** * flama.routing: route resolution, signature introspection, registration

    A shallow embedding of [src/flama/routing.py].  Python objects that the
    module mutates or shares (routers, component lists, endpoints) live in a
    store indexed by addresses; dictionaries are finite maps; the routing
    substrate's path matcher and path compiler are parameters of the
    development. *)

From stdpp Require Import gmap strings list fin_maps.
From Stdlib Require Import ZArith Ascii String.

Local Open Scope string_scope.

(** ** Python values and exceptions *)

Definition loc := nat.

(** The exceptions the modelled code can raise.  [NoSuchObject] is not a
    Python exception: it marks an address that the store does not hold. *)
Inductive exn :=
  | AttributeError
  | TypeError
  | AssertionError
  | NoSuchObject.

(** Default values of parameters ([inspect.Parameter.default]). *)
Inductive pyvalue :=
  | PyNone
  | PyInt (z : Z)
  | PyStr (s : string)
  | PyBool (b : bool)
  | PyObj (n : nat).

(** Annotations of parameters and return types.  [A_empty] is
    [inspect.Signature.empty]; [A_schema n] is a marshmallow schema
    ([is_marshmallow_schema] holds); [A_dataclass n] is a marshmallow
    dataclass whose [.Schema] is [A_schema n] ([is_marshmallow_dataclass]
    holds); [A_other n] is any other type. *)
Inductive annotation :=
  | A_empty
  | A_int
  | A_float
  | A_str
  | A_bool
  | A_PathParam
  | A_QueryParam
  | A_OptInt
  | A_OptFloat
  | A_OptBool
  | A_OptStr
  | A_schema (n : nat)
  | A_dataclass (n : nat)
  | A_other (n : nat).

#[global] Instance pyvalue_eq_dec : EqDecision pyvalue.
Proof. solve_decision. Defined.

#[global] Instance annotation_eq_dec : EqDecision annotation.
Proof. solve_decision. Defined.

Definition is_marshmallow_schema (a : annotation) : bool :=
  match a with A_schema _ => true | _ => false end.

Definition is_marshmallow_dataclass (a : annotation) : bool :=
  match a with A_dataclass _ => true | _ => false end.

(** ** Field descriptors *)

Inductive FieldLocation := query | path | body.

Inductive mm_field := Integer | Number | String_ | Boolean.

(** Keyword arguments the introspector passes to a marshmallow field. *)
Inductive schema_kwargs :=
  | kw_required (b : bool)
  | kw_missing (v : pyvalue).

(** A schema object held by a [Field]: a marshmallow field built with
    keyword arguments, an instance of a schema class, or an instance of the
    [.Schema] of a dataclass. *)
Inductive schema :=
  | FieldSchema (t : mm_field) (kw : schema_kwargs)
  | SchemaInstance (n : nat)
  | DataclassSchemaInstance (n : nat).

(** [required = None] stands for a [Field] built without the [required]
    argument. *)
Record Field := {
  name : string;
  location : FieldLocation;
  field_schema : option schema;
  required : option bool;
}.

Abbreviation FieldsMap := (gmap string Field).
Abbreviation MethodsMap := (gmap string (gmap string Field)).

(** ** Signatures, components, endpoints *)

Record Param := {
  p_name : string;
  p_annotation : annotation;
  p_default : option pyvalue;      (* None: Parameter.empty *)
}.

(** [p.replace(annotation=a)] *)
Definition replace_annotation (p : Param) (a : annotation) : Param :=
  {| p_name := p_name p; p_annotation := a; p_default := p_default p |}.

(** A component: its capability check and the signature of its [resolve]. *)
Record Component := {
  can_handle_parameter : Param -> bool;
  resolve : list Param;
}.

(** A function object: [__name__], signature and the two attributes that
    [add_route] writes and the introspector reads. *)
Record Function := {
  fn_name : string;
  fn_signature : list Param;
  fn_return_annotation : annotation;
  fn_request_schemas : option (gmap string annotation);
  fn_response_schema : option annotation;
}.

(** An endpoint is a function, a class with verb-named methods, or a bound
    method.  A class carries its own two attributes and the signature of its
    constructor.  A bound method [EpMethod f] shows the attributes of its
    function and the signature left once its first parameter is bound ([f]
    holds both), but it accepts no attribute of its own: an assignment to one
    raises [AttributeError]. *)
Inductive Endpoint :=
  | EpFunction (f : Function)
  | EpClass (cls : Function) (members : gmap string Function)
  | EpMethod (f : Function).

(** ** Routes, mounts, routers *)

Record Route := {
  route_path : string;
  endpoint : loc;
  route_name : string;
  include_in_schema : bool;
  methods : list string;
  param_convertors : list string;
  query_fields : MethodsMap;
  path_fields : MethodsMap;
  body_field : gmap string (option Field);
  output_field : gmap string annotation;
  status_code : Z;
}.

Record WebSocketRoute := {
  ws_path : string;
  ws_endpoint : loc;
  ws_name : string;
  ws_param_convertors : list string;
  ws_query_fields : MethodsMap;
  ws_path_fields : MethodsMap;
  ws_body_field : gmap string (option Field);
  ws_output_field : gmap string annotation;
}.

(** The application a [Mount] holds: a [Router] of this module, by address,
    or any other ASGI application. *)
Inductive App :=
  | AppRouter (a : loc)
  | AppOther (n : nat).

Record Mount := {
  mount_path : string;
  mount_app : App;
  mount_name : option string;
}.

Inductive Entry :=
  | ERoute (r : Route)
  | EWebSocketRoute (w : WebSocketRoute)
  | EMount (m : Mount).

Definition is_mount (e : Entry) : bool :=
  match e with EMount _ => true | _ => false end.

(** A router owns its ordered entries and refers to a list object of
    components. *)
Record Router := {
  routes : list Entry;
  components : loc;
}.

Record Store := {
  routers : gmap loc Router;
  component_lists : gmap loc (list Component);
  endpoints : gmap loc Endpoint;
}.

(** ** Scopes *)

Inductive value :=
  | VStr (s : string)
  | VParams (m : gmap string string)
  | VObj (n : nat).

#[global] Instance value_eq_dec : EqDecision value.
Proof. solve_decision. Defined.

Abbreviation Scope := (gmap string value).

(** [a + b]: defined on strings, a [TypeError] otherwise. *)
Definition py_add (a b : value) : option value :=
  match a, b with
  | VStr x, VStr y => Some (VStr (x +:+ y))
  | _, _ => None
  end.

Inductive Match := NONE | PARTIAL | FULL.

(** What [get_route_from_scope] returns: an entry of some router, or the
    [not_found] handler of the router at an address. *)
Inductive target :=
  | TEntry (e : Entry)
  | TNotFound (router : loc).

Inductive outcome :=
  | Returned (t : target) (s : option Scope)
  | Raised (e : exn)
  | OutOfFuel.

(** ** Router.get_route_from_scope *)

Section Routing.

  (** [route.matches(scope)], from the routing substrate. *)
Variable matches : Entry -> Scope -> Match * Scope.

Variable st : Store.

  (** The statements run before [route.matches] at each entry: for a
      [Mount], read the path, pop the root path and, outside a mount,
      rewrite the path.  Returns the scope and the popped root path. *)
Definition entry_prelude (mounted : bool) (route : Entry) (scope : Scope)
    : option (Scope * value) :=
    if is_mount route then
      let path_ := default (VStr "") (scope !! "path") in
      let root_path := default (VStr "") (scope !! "root_path") in
      let scope := delete "root_path" scope in
      if mounted then Some (scope, root_path)
      else
        match py_add root_path path_ with
        | Some p => Some (<["path" := p]> scope, root_path)
        | None => None
        end
    else Some (scope, VStr "").

Section Loop.

    (** [app.get_route_from_scope(scope, mounted=True)] for the router at an
        address. *)
Variable recurse : loc -> Scope -> outcome * Scope.
Variable self : loc.
Variable mounted : bool.

    (** The branch taken on a FULL match; [scope] is already updated with
        the child scope. *)
Definition on_full (route : Entry) (root_path : value) (child_scope scope : Scope)
      : outcome * Scope :=
      match route with
      | EMount m =>
          let updated :=
            if mounted then
              match py_add root_path (default (VStr "") (child_scope !! "root_path")) with
              | Some rp => Some (<["root_path" := rp]> scope)
              | None => None
              end
            else Some scope in
          match updated with
          | None => (Raised TypeError, scope)
          | Some scope =>
              match mount_app m with
              | AppRouter a => recurse a scope
              | AppOther _ => (Raised AttributeError, scope)
              end
          end
      | _ => (Returned (TEntry route) (Some scope), scope)
      end.

    (** The [for] loop and the statements after it.  The pair is the value
        returned (or the exception) and the scope object as the call leaves
        it. *)
Fixpoint route_loop (rs : list Entry) (scope : Scope)
        (partial : option (Entry * Scope)) : outcome * Scope :=
      match rs with
      | [] =>
          match partial with
          | Some (p, partial_scope) =>
              let scope := partial_scope ∪ scope in
              (Returned (TEntry p) (Some scope), scope)
          | None => (Returned (TNotFound self) None, scope)
          end
      | route :: rest =>
          match entry_prelude mounted route scope with
          | None => (Raised TypeError, delete "root_path" scope)
          | Some (scope, root_path) =>
              let '(match_, child_scope) := matches route scope in
              match match_ with
              | FULL => on_full route root_path child_scope (child_scope ∪ scope)
              | PARTIAL =>
                  route_loop rest scope
                    (match partial with
                     | None => Some (route, child_scope)
                     | Some _ => partial
                     end)
              | NONE => route_loop rest scope partial
              end
          end
      end.

End Loop.

Fixpoint get_route_from_scope (fuel : nat) (self : loc) (scope : Scope) (mounted : bool)
    : outcome * Scope :=
    match fuel with
    | O => (OutOfFuel, scope)
    | S fuel' =>
        match routers st !! self with
        | None => (Raised NoSuchObject, scope)
        | Some r =>
            route_loop (fun a s => get_route_from_scope fuel' a s true)
              self mounted (routes r) scope None
        end
    end.

  (** The state of the loop once it has passed over [pre] without
      returning: the scope as rewritten so far and the remembered partial
      match.  [None] when the loop returns or raises inside [pre]. *)
Fixpoint loop_state_after (mounted : bool) (pre : list Entry) (scope : Scope)
      (partial : option (Entry * Scope)) : option (Scope * option (Entry * Scope)) :=
    match pre with
    | [] => Some (scope, partial)
    | route :: rest =>
        match entry_prelude mounted route scope with
        | None => None
        | Some (scope, _) =>
            let '(match_, child_scope) := matches route scope in
            match match_ with
            | FULL => None
            | PARTIAL =>
                loop_state_after mounted rest scope
                  (match partial with
                   | None => Some (route, child_scope)
                   | Some _ => partial
                   end)
            | NONE => loop_state_after mounted rest scope partial
            end
        end
    end.


  (** The path and the root path of a scope, where present, are strings. *)
Definition is_str_or_absent (v : option value) : bool :=
    match v with
    | None | Some (VStr _) => true
    | Some _ => false
    end.

Definition str_paths (scope : Scope) : bool :=
    is_str_or_absent (scope !! "path") && is_str_or_absent (scope !! "root_path").

End Routing.

(** ** The substrate's matchers on parameter-free paths

    [starlette.routing] is not part of this module; the general development
    takes [matches] as a parameter.  For paths that contain no [{param}]
    the substrate's three matchers are the following: a route or websocket
    route matches a scope of its own type whose path is the route's path,
    and a route reports PARTIAL when its method set is not empty and lacks
    the scope's method; a mount at prefix [p] matches the paths that start
    with [p/], and hands down the rest of the path and the root path
    extended by [p]. *)

Module Substrate.

Definition path_params_of (scope : Scope) : gmap string string :=
  match scope !! "path_params" with
  | Some (VParams m) => m
  | _ => ∅
  end.

Definition method_allowed (ms : list string) (scope : Scope) : bool :=
  match ms with
  | [] => true
  | _ =>
      match scope !! "method" with
      | Some (VStr m) => bool_decide (m ∈ ms)
      | _ => false
      end
  end.

Definition route_matches (r : Route) (scope : Scope) : Match * Scope :=
  if bool_decide (scope !! "type" = Some (VStr "http"))
     && bool_decide (scope !! "path" = Some (VStr (route_path r)))
  then
    let child_scope : Scope :=
      <["endpoint" := VObj (endpoint r)]>
        (<["path_params" := VParams (path_params_of scope)]> ∅) in
    if method_allowed (methods r) scope then (FULL, child_scope)
    else (PARTIAL, child_scope)
  else (NONE, ∅).

Definition websocket_matches (w : WebSocketRoute) (scope : Scope) : Match * Scope :=
  if bool_decide (scope !! "type" = Some (VStr "websocket"))
     && bool_decide (scope !! "path" = Some (VStr (ws_path w)))
  then
    (FULL, <["endpoint" := VObj (ws_endpoint w)]>
             (<["path_params" := VParams (path_params_of scope)]> ∅))
  else (NONE, ∅).

Definition app_object (a : App) : value :=
  match a with
  | AppRouter l => VObj l
  | AppOther n => VObj n
  end.

Definition mount_matches (m : Mount) (scope : Scope) : Match * Scope :=
  match scope !! "type", scope !! "path" with
  | Some (VStr ty), Some (VStr path_) =>
      let prefix_ := mount_path m +:+ "/" in
      if (bool_decide (ty = "http") || bool_decide (ty = "websocket"))
         && String.prefix prefix_ path_
      then
        let remaining_path :=
          "/" +:+ String.substring (String.length prefix_)
                    (String.length path_ - String.length prefix_) path_ in
        let matched_path := mount_path m in
        let root_path := default (VStr "") (scope !! "root_path") in
        match py_add root_path (VStr matched_path) with
        | Some rp =>
            (FULL,
             <["path_params" := VParams (path_params_of scope)]>
               (<["app_root_path" := default root_path (scope !! "app_root_path")]>
                  (<["root_path" := rp]>
                     (<["path" := VStr remaining_path]>
                        (<["endpoint" := app_object (mount_app m)]> ∅)))))
        | None => (NONE, ∅)
        end
      else (NONE, ∅)
  | _, _ => (NONE, ∅)
  end.

Definition matches (e : Entry) (scope : Scope) : Match * Scope :=
  match e with
  | ERoute r => route_matches r scope
  | EWebSocketRoute w => websocket_matches w scope
  | EMount m => mount_matches m scope
  end.

End Substrate.

(** ** Strings *)

Definition ascii_upper (c : ascii) : ascii :=
  let n := Ascii.N_of_ascii c in
  if ((97 <=? n) && (n <=? 122))%N then Ascii.ascii_of_N (n - 32) else c.

Definition ascii_lower (c : ascii) : ascii :=
  let n := Ascii.N_of_ascii c in
  if ((65 <=? n) && (n <=? 90))%N then Ascii.ascii_of_N (n + 32) else c.

Fixpoint map_string (f : ascii -> ascii) (s : string) : string :=
  match s with
  | EmptyString => EmptyString
  | String c s' => String (f c) (map_string f s')
  end.

Definition upper : string -> string := map_string ascii_upper.
Definition lower : string -> string := map_string ascii_lower.

(** [s.rstrip("/")] *)
Fixpoint rstrip_slash (s : string) : string :=
  match s with
  | EmptyString => EmptyString
  | String c s' =>
      match rstrip_slash s' with
      | EmptyString => if Ascii.eqb c "/"%char then EmptyString else String c EmptyString
      | t => String c t
      end
  end.

(** [n] slashes *)
Fixpoint slashes (n : nat) : string :=
  match n with
  | O => EmptyString
  | S n' => String "/"%char (slashes n')
  end.

(** The last character of a string, if any. *)
Fixpoint last_char (s : string) : option ascii :=
  match s with
  | EmptyString => None
  | String c EmptyString => Some c
  | String _ s' => last_char s'
  end.

(** ** Insertion-ordered dictionaries

    [dict] keeps the position of a key at its first insertion and the value
    of its last one; the introspector iterates over such a dictionary, and
    the order decides which body field is kept. *)

Fixpoint odict_set {A} (k : string) (v : A) (d : list (string * A)) : list (string * A) :=
  match d with
  | [] => [(k, v)]
  | (k', v') :: d' =>
      if bool_decide (k' = k) then (k, v) :: d' else (k', v') :: odict_set k v d'
  end.

(** [d.update(other)] *)
Definition odict_update {A} (d other : list (string * A)) : list (string * A) :=
  foldl (fun acc kv => odict_set kv.1 kv.2 acc) d other.

(** ** FieldsMixin *)

(** [PATH_SCHEMA_MAPPING]: [None] is a [KeyError]; [Some None] is the entry
    of [inspect.Signature.empty], a function that returns [None]. *)
Definition PATH_SCHEMA_MAPPING (a : annotation) : option (option mm_field) :=
  match a with
  | A_empty => Some None
  | A_int => Some (Some Integer)
  | A_float => Some (Some Number)
  | A_str => Some (Some String_)
  | A_bool => Some (Some Boolean)
  | A_PathParam => Some (Some String_)
  | _ => None
  end.

Definition QUERY_SCHEMA_MAPPING (a : annotation) : option (option mm_field) :=
  match a with
  | A_empty => Some None
  | A_int => Some (Some Integer)
  | A_float => Some (Some Number)
  | A_bool => Some (Some Boolean)
  | A_str => Some (Some String_)
  | A_OptInt => Some (Some Integer)
  | A_OptFloat => Some (Some Number)
  | A_OptBool => Some (Some Boolean)
  | A_OptStr => Some (Some String_)
  | A_QueryParam => Some (Some String_)
  | _ => None
  end.

(** [a in (OptInt, OptFloat, OptBool, OptStr)] *)
Definition is_optional_type (a : annotation) : bool :=
  match a with
  | A_OptInt | A_OptFloat | A_OptBool | A_OptStr => true
  | _ => false
  end.

(** Calling an entry of a schema mapping with keyword arguments. *)
Definition call_schema (ctor : option mm_field) (kw : schema_kwargs) : option schema :=
  match ctor with
  | Some t => Some (FieldSchema t kw)
  | None => None
  end.

Section Parameters.

(** [self._get_parameters_from_handler(component.resolve, router)] *)
Variable recurse : list Param -> option (list (string * Param)).
Variable cs : list Component.

(** The loop of [_get_parameters_from_handler] over a signature. *)
Fixpoint collect_parameters (sig : list Param) (parameters : list (string * Param))
  : option (list (string * Param)) :=
  match sig with
  | [] => Some parameters
  | parameter :: sig' =>
      match List.find (fun component => can_handle_parameter component parameter) cs with
      | Some component =>
          match recurse (resolve component) with
          | Some sub => collect_parameters sig' (odict_update parameters sub)
          | None => None
          end
      | None => collect_parameters sig' (odict_set (p_name parameter) parameter parameters)
      end
  end.

End Parameters.

(** [None]: the recursion through the components does not end within
    [fuel] nested calls. *)
Fixpoint _get_parameters_from_handler (fuel : nat) (cs : list Component) (sig : list Param)
  : option (list (string * Param)) :=
  match fuel with
  | O => None
  | S fuel' => collect_parameters (_get_parameters_from_handler fuel' cs) cs sig []
  end.

Record handler_fields := {
  hf_query : FieldsMap;
  hf_path : FieldsMap;
  hf_body : option Field;
}.

(** The parameter as classified: with its annotation replaced by the schema
    override of its name, if there is one. *)
Definition overridden (request_schemas : gmap string annotation) (name_ : string)
    (param : Param) : Param :=
  match request_schemas !! name_ with
  | Some schema_override => replace_annotation param schema_override
  | None => param
  end.

(** One iteration of the loop of [_get_fields_from_handler]. *)
Definition classify (convertors : list string) (request_schemas : gmap string annotation)
    (acc : handler_fields) (item : string * Param) : handler_fields :=
  let name_ := item.1 in
  let param := overridden request_schemas name_ item.2 in
  if bool_decide (name_ ∈ ["self"; "cls"]) then acc
  else if bool_decide (name_ ∈ convertors) then
    let schema_ := default (Some String_) (PATH_SCHEMA_MAPPING (p_annotation param)) in
    {| hf_query := hf_query acc;
       hf_path :=
         <[name_ := {| name := name_; location := path;
                       field_schema := call_schema schema_ (kw_required true);
                       required := Some true |}]> (hf_path acc);
       hf_body := hf_body acc |}
  else
    match QUERY_SCHEMA_MAPPING (p_annotation param) with
    | Some ctor =>
        let '(required_, kwargs) :=
          if is_optional_type (p_annotation param) || bool_decide (is_Some (p_default param))
          then (false, kw_missing (default PyNone (p_default param)))
          else (true, kw_required true) in
        {| hf_query :=
             <[name_ := {| name := name_; location := query;
                           field_schema := call_schema ctor kwargs;
                           required := Some required_ |}]> (hf_query acc);
           hf_path := hf_path acc;
           hf_body := hf_body acc |}
    | None =>
        match p_annotation param with
        | A_schema n =>
            {| hf_query := hf_query acc; hf_path := hf_path acc;
               hf_body := Some {| name := name_; location := body;
                                  field_schema := Some (SchemaInstance n);
                                  required := None |} |}
        | A_dataclass n =>
            {| hf_query := hf_query acc; hf_path := hf_path acc;
               hf_body := Some {| name := name_; location := body;
                                  field_schema := Some (DataclassSchemaInstance n);
                                  required := None |} |}
        | _ => acc
        end
    end.

Definition output_of (handler : Function) : annotation :=
  let output := default (fn_return_annotation handler) (fn_response_schema handler) in
  match output with
  | A_dataclass n => A_schema n
  | _ => output
  end.

Definition _get_fields_from_handler (fuel : nat) (cs : list Component)
    (convertors : list string) (handler : Function)
  : option (handler_fields * annotation) :=
  let request_schemas := default ∅ (fn_request_schemas handler) in
  match _get_parameters_from_handler fuel cs (fn_signature handler) with
  | None => None
  | Some parameters =>
      Some (foldl (classify convertors request_schemas)
              {| hf_query := ∅; hf_path := ∅; hf_body := None |} parameters,
            output_of handler)
  end.

(** The fields a handler was given, as (name, location, required): the path
    fields, then the query fields (each map in the order of its keys'
    encoding), then the body field. *)
Definition field_summary (f : Field) : string * FieldLocation * option bool :=
  (name f, location f, required f).

Definition produced_fields (hf : handler_fields) : list (string * FieldLocation * option bool) :=
  (field_summary <$> (map_to_list (hf_path hf)).*2)
  ++ (field_summary <$> (map_to_list (hf_query hf)).*2)
  ++ (field_summary <$> option_list (hf_body hf)).

(** Whether an iteration of the loop of [_get_fields_from_handler] assigns
    the body field: the name is not skipped, is not a path parameter, and the
    annotation, after the override, is no query type but a schema or a
    dataclass. *)
Definition assigns_body (convertors : list string) (request_schemas : gmap string annotation)
    (item : string * Param) : bool :=
  let a := p_annotation (overridden request_schemas item.1 item.2) in
  negb (bool_decide (item.1 ∈ ["self"; "cls"]))
  && negb (bool_decide (item.1 ∈ convertors))
  && negb (bool_decide (is_Some (QUERY_SCHEMA_MAPPING a)))
  && (is_marshmallow_schema a || is_marshmallow_dataclass a).

(** The schema object of a body field: [annotation()] or
    [annotation.Schema()]. *)
Definition body_schema (a : annotation) : option schema :=
  match a with
  | A_schema n => Some (SchemaInstance n)
  | A_dataclass n => Some (DataclassSchemaInstance n)
  | _ => None
  end.

(** The name of a body field, if there is one. *)
Definition hf_body_name (f : option Field) : option string := name <$> f.

(** ** Results and the store monad *)

Inductive res (A : Type) :=
  | Ok (a : A)
  | Raise (e : exn)
  | Diverges.

Arguments Ok {A} a.
Arguments Raise {A} e.
Arguments Diverges {A}.

(** A computation on the store: its result, and the store as it leaves it
    (also when it raises: what was written before stays written). *)
Definition M (A : Type) : Type := Store -> res A * Store.

#[global] Instance M_ret : MRet M := fun A a st => (Ok a, st).

#[global] Instance M_bind : MBind M := fun A B f c st =>
  match c st with
  | (Ok a, st') => f a st'
  | (Raise e, st') => (Raise e, st')
  | (Diverges, st') => (Diverges, st')
  end.

Definition lift {A} (r : res A) : M A := fun st => (r, st).

Definition raise {A} (e : exn) : M A := lift (Raise e).

Definition get_router (a : loc) : M Router := fun st =>
  match routers st !! a with
  | Some r => (Ok r, st)
  | None => (Raise NoSuchObject, st)
  end.

Definition get_endpoint (a : loc) : M Endpoint := fun st =>
  match endpoints st !! a with
  | Some ep => (Ok ep, st)
  | None => (Raise NoSuchObject, st)
  end.

Definition get_components (a : loc) : M (list Component) := fun st =>
  match component_lists st !! a with
  | Some cs => (Ok cs, st)
  | None => (Raise NoSuchObject, st)
  end.

Definition set_router (a : loc) (r : Router) : M unit := fun st =>
  (Ok tt, {| routers := <[a := r]> (routers st);
             component_lists := component_lists st;
             endpoints := endpoints st |}).

Definition set_endpoint (a : loc) (ep : Endpoint) : M unit := fun st =>
  (Ok tt, {| routers := routers st;
             component_lists := component_lists st;
             endpoints := <[a := ep]> (endpoints st) |}).

(** [self.routes.append(route)] *)
Definition append_route (self : loc) (route : Entry) : M unit :=
  r ← get_router self;
  set_router self {| routes := routes r ++ [route]; components := components r |}.

(** The function object that carries the attributes of an endpoint and,
    for [inspect.signature(endpoint)], its signature. *)
Definition endpoint_object (ep : Endpoint) : Function :=
  match ep with
  | EpFunction f => f
  | EpClass cls _ => cls
  | EpMethod f => f
  end.

(** Whether [endpoint.attribute = value] succeeds: a function and a class
    take the attribute, a bound method raises [AttributeError]. *)
Definition accepts_attributes (ep : Endpoint) : bool :=
  match ep with
  | EpFunction _ | EpClass _ _ => true
  | EpMethod _ => false
  end.

(** An attribute write on an endpoint that accepts it; a bound method is
    left as it is (the write has raised, see [accepts_attributes]). *)
Definition with_object (g : Function -> Function) (ep : Endpoint) : Endpoint :=
  match ep with
  | EpFunction f => EpFunction (g f)
  | EpClass cls members => EpClass (g cls) members
  | EpMethod f => EpMethod f
  end.

(** [endpoint._request_schemas = v] *)
Definition set_request_schemas (v : option (gmap string annotation)) : Endpoint -> Endpoint :=
  with_object (fun f =>
    {| fn_name := fn_name f; fn_signature := fn_signature f;
       fn_return_annotation := fn_return_annotation f;
       fn_request_schemas := v;
       fn_response_schema := fn_response_schema f |}).

(** [endpoint._response_schema = v] *)
Definition set_response_schema (v : option annotation) : Endpoint -> Endpoint :=
  with_object (fun f =>
    {| fn_name := fn_name f; fn_signature := fn_signature f;
       fn_return_annotation := fn_return_annotation f;
       fn_request_schemas := fn_request_schemas f;
       fn_response_schema := v |}).

(** ** FieldsMixin._get_fields and the constructors *)

Record route_fields := {
  rf_query : MethodsMap;
  rf_path : MethodsMap;
  rf_body : gmap string (option Field);
  rf_output : gmap string annotation;
}.

Definition no_fields : route_fields :=
  {| rf_query := ∅; rf_path := ∅; rf_body := ∅; rf_output := ∅ |}.

(** [[(m, getattr(endpoint, m.lower() if m != "HEAD" else "get")) for m in methods]] *)
Fixpoint class_handlers (members : gmap string Function) (ms : list string)
  : res (list (string * Function)) :=
  match ms with
  | [] => Ok []
  | m :: ms' =>
      match members !! (if bool_decide (m = "HEAD") then "get" else lower m) with
      | None => Raise AttributeError
      | Some h =>
          match class_handlers members ms' with
          | Ok hs => Ok ((m, h) :: hs)
          | other => other
          end
      end
  end.

(** The list [methods] of [_get_fields]: [Some ms] for a route with method
    list [ms], [None] for a websocket route, which has no [methods]. *)
Definition method_handlers (ep : Endpoint) (ms : option (list string))
  : res (list (string * Function)) :=
  match ms with
  | Some ms =>
      match ep with
      | EpClass _ members => class_handlers members ms
      | EpFunction f | EpMethod f => Ok (List.map (fun m => (m, f)) ms)
      end
  | None => Ok [("GET", endpoint_object ep)]
  end.

(** The loop of [_get_fields] over the (method, handler) pairs. *)
Fixpoint fields_loop (fuel : nat) (cs : list Component) (convertors : list string)
    (hs : list (string * Function)) (acc : route_fields) : res route_fields :=
  match hs with
  | [] => Ok acc
  | (m, h) :: hs' =>
      match _get_fields_from_handler fuel cs convertors h with
      | None => Diverges
      | Some (hf, out) =>
          fields_loop fuel cs convertors hs'
            {| rf_query := <[m := hf_query hf]> (rf_query acc);
               rf_path := <[m := hf_path hf]> (rf_path acc);
               rf_body := <[m := hf_body hf]> (rf_body acc);
               rf_output := <[m := out]> (rf_output acc) |}
      end
  end.

Definition _get_fields (fuel : nat) (cs : list Component) (convertors : list string)
    (ep : Endpoint) (ms : option (list string)) : res route_fields :=
  match method_handlers ep ms with
  | Ok hs => fields_loop fuel cs convertors hs no_fields
  | Raise e => Raise e
  | Diverges => Diverges
  end.

(** The members of [HTTPMethod] and the attributes of a [Route] object:
    [Route.__init__] keeps, for a route built without methods, the members
    [m] for which the route object itself has an attribute [m.lower()]. *)
Definition HTTPMethod_members : list string :=
  ["GET"; "HEAD"; "POST"; "PUT"; "DELETE"; "CONNECT"; "OPTIONS"; "TRACE"; "PATCH"].

Definition Route_attributes : list string :=
  ["path"; "endpoint"; "name"; "include_in_schema"; "app"; "methods";
   "path_regex"; "path_format"; "param_convertors"; "matches"; "url_path_for";
   "handle"; "endpoint_wrapper"; "query_fields"; "path_fields"; "body_field";
   "output_field"; "status_code"].

(** The method set the substrate's constructor computes: upper-cased, with
    HEAD added when GET is there. *)
Definition normalise_methods (ms : list string) : list string :=
  let ms := List.map upper ms in
  if bool_decide ("GET" ∈ ms) && negb (bool_decide ("HEAD" ∈ ms)) then ms ++ ["HEAD"] else ms.

Section Registration.

(** The names of the path parameters that the substrate's [compile_path]
    finds in a path. *)
Variable compile_path : string -> list string.

(** Nested calls allowed to the recursion through the components. *)
Variable fuel : nat.

(** [Route(path, endpoint=endpoint, methods=methods, name=name,
    include_in_schema=include_in_schema, router=self, status_code=status_code)] *)
Definition Route_init (path_ : string) (endpoint_ : loc) (router : loc)
    (methods_ : option (list string)) (name_ : option string)
    (include_in_schema_ : bool) (status_code_ : Z) : M Route :=
  if negb (String.prefix "/" path_) then raise AssertionError
  else
    ep ← get_endpoint endpoint_;
    let name_ := default (fn_name (endpoint_object ep)) name_ in
    let methods_ :=
      match ep, methods_ with
      | EpFunction _, None | EpMethod _, None => Some ["GET"]
      | _, _ => methods_
      end in
    let methods_ := normalise_methods <$> methods_ in
    let convertors := compile_path path_ in
    let methods_ :=
      match methods_ with
      | Some ms => ms
      | None =>
          List.filter (fun m => bool_decide (lower m ∈ Route_attributes)) HTTPMethod_members
      end in
    r ← get_router router;
    cs ← get_components (components r);
    fields ← lift (_get_fields fuel cs convertors ep (Some methods_));
    mret {| route_path := path_;
            endpoint := endpoint_;
            route_name := name_;
            include_in_schema := include_in_schema_;
            methods := methods_;
            param_convertors := convertors;
            query_fields := rf_query fields;
            path_fields := rf_path fields;
            body_field := rf_body fields;
            output_field := rf_output fields;
            status_code := status_code_ |}.

(** [WebSocketRoute(path, endpoint=endpoint, name=name, router=self)] *)
Definition WebSocketRoute_init (path_ : string) (endpoint_ : loc) (router : loc)
    (name_ : option string) : M WebSocketRoute :=
  if negb (String.prefix "/" path_) then raise AssertionError
  else
    ep ← get_endpoint endpoint_;
    let name_ := default (fn_name (endpoint_object ep)) name_ in
    let convertors := compile_path path_ in
    r ← get_router router;
    cs ← get_components (components r);
    fields ← lift (_get_fields fuel cs convertors ep None);
    mret {| ws_path := path_;
            ws_endpoint := endpoint_;
            ws_name := name_;
            ws_param_convertors := convertors;
            ws_query_fields := rf_query fields;
            ws_path_fields := rf_path fields;
            ws_body_field := rf_body fields;
            ws_output_field := rf_output fields |}.

(** [Mount(path, app=app, name=name)] *)
Definition Mount_init (path_ : string) (app : App) (name_ : option string) : M Mount :=
  if negb (bool_decide (path_ = "") || String.prefix "/" path_) then raise AssertionError
  else mret {| mount_path := rstrip_slash path_; mount_app := app; mount_name := name_ |}.

(** ** Router: the registration surface *)

(** The first statement of [add_route]: the value written to
    [endpoint._request_schemas], or the [AttributeError] of [None.copy()]. *)
Definition merged_request_schemas (attached request_schemas : option (gmap string annotation))
  : res (option (gmap string annotation)) :=
  match attached with
  | Some attached_ =>
      if bool_decide (attached_ = ∅) then Ok request_schemas
      else
        match request_schemas with
        | None => Raise AttributeError
        | Some rs => Ok (Some (attached_ ∪ rs))
        end
  | None => Ok request_schemas
  end.

(** The two attribute writes of [add_route], on an endpoint that accepts
    them: [_request_schemas] takes the merged value, and [_response_schema]
    the argument if it was [None]. *)
Definition attach_schemas (merged : option (gmap string annotation))
    (response_schema : option annotation) (ep : Endpoint) : Endpoint :=
  let ep := set_request_schemas merged ep in
  match fn_response_schema (endpoint_object ep) with
  | None => set_response_schema response_schema ep
  | Some _ => ep
  end.

(** The store after [endpoint] is written at an address. *)
Definition with_endpoint (a : loc) (ep : Endpoint) (st : Store) : Store :=
  (set_endpoint a ep st).2.

Definition add_route (self : loc) (path_ : string) (endpoint_ : loc)
    (methods_ : option (list string)) (name_ : option string)
    (include_in_schema_ : bool) (status_code_ : Z)
    (response_schema : option annotation)
    (request_schemas : option (gmap string annotation)) : M unit :=
  ep ← get_endpoint endpoint_;
  merged ← lift (merged_request_schemas (fn_request_schemas (endpoint_object ep))
                   request_schemas);
  (if accepts_attributes ep
   then set_endpoint endpoint_ (attach_schemas merged response_schema ep)
   else raise AttributeError);;
  route ← Route_init path_ endpoint_ self methods_ name_ include_in_schema_ status_code_;
  append_route self (ERoute route).

Definition add_websocket_route (self : loc) (path_ : string) (endpoint_ : loc)
    (name_ : option string) : M unit :=
  route ← WebSocketRoute_init path_ endpoint_ self name_;
  append_route self (EWebSocketRoute route).

Definition mount (self : loc) (path_ : string) (app : App) (name_ : option string) : M unit :=
  match app with
  | AppRouter a =>
      r ← get_router self;
      ra ← get_router a;
      set_router a {| routes := routes ra; components := components r |}
  | AppOther _ => mret tt
  end;;
  let path_ := rstrip_slash path_ in
  route ← Mount_init path_ app name_;
  append_route self (EMount route).

(** The keyword arguments a resource route stores for [add_route]; names
    that [add_route] does not accept, or that the call already binds, are
    in [kw_unexpected]. *)
Record Kwargs := {
  kw_include_in_schema : option bool;
  kw_status_code : option Z;
  kw_response_schema : option annotation;
  kw_request_schemas : option (gmap string annotation);
  kw_unexpected : list string;
}.

(** A route declared on a resource: its key in [resource.routes], the
    endpoint [getattr(resource, name)] (for a method of the resource, read
    from the instance, a bound method), its [__name__] and its [_meta]. *)
Record ResourceRoute := {
  rr_key : string;
  rr_func : loc;
  rr_name : string;
  rr_meta_path : string;
  rr_meta_methods : option (list string);
  rr_meta_name : option string;
  rr_meta_kwargs : Kwargs;
}.

Record Resource := {
  meta_name : string;
  resource_routes : list ResourceRoute;
}.

(** The body of the loop of [add_resource]. *)
Definition add_resource_route (self : loc) (path_ : string) (resource : Resource)
    (route : ResourceRoute) : M unit :=
  let route_path_ := path_ +:+ meta_name resource +:+ rr_meta_path route in
  let route_func := rr_func route in
  let name_ := default (meta_name resource +:+ "-" +:+ rr_name route) (rr_meta_name route) in
  let kw := rr_meta_kwargs route in
  match kw_unexpected kw with
  | [] =>
      add_route self route_path_ route_func (rr_meta_methods route) (Some name_)
        (default true (kw_include_in_schema kw))
        (default 200%Z (kw_status_code kw))
        (kw_response_schema kw)
        (kw_request_schemas kw)
  | _ => raise TypeError
  end.

Fixpoint add_resource_loop (self : loc) (path_ : string) (resource : Resource)
    (rs : list ResourceRoute) : M unit :=
  match rs with
  | [] => mret tt
  | route :: rs' =>
      add_resource_route self path_ resource route;;
      add_resource_loop self path_ resource rs'
  end.

Definition add_resource (self : loc) (path_ : string) (resource : Resource) : M unit :=
  add_resource_loop self path_ resource (resource_routes resource).

(** One call of the registration surface on the router at [self]. *)
Inductive registration :=
  | Reg_add_route (path_ : string) (endpoint_ : loc) (methods_ : option (list string))
      (name_ : option string) (include_in_schema_ : bool) (status_code_ : Z)
      (response_schema : option annotation)
      (request_schemas : option (gmap string annotation))
  | Reg_add_websocket_route (path_ : string) (endpoint_ : loc) (name_ : option string)
  | Reg_mount (path_ : string) (app : App) (name_ : option string)
  | Reg_add_resource (path_ : string) (resource : Resource).

Definition register (self : loc) (op : registration) : M unit :=
  match op with
  | Reg_add_route p e ms n i s resp reqs => add_route self p e ms n i s resp reqs
  | Reg_add_websocket_route p e n => add_websocket_route self p e n
  | Reg_mount p a n => mount self p a n
  | Reg_add_resource p r => add_resource self p r
  end.

(** A sequence of registrations, each on some router; a call that raises
    leaves the store as it was when it raised, and the next call goes on
    from there. *)
Fixpoint register_all (ops : list (loc * registration)) (st : Store) : Store :=
  match ops with
  | [] => st
  | (self, op) :: ops' => register_all ops' (register self op st).2
  end.

End Registration.

(** ** Router: the decorators *)

Section Decorators.

Variable compile_path : string -> list string.
Variable fuel : nat.

(** [router.route(path, ...)(func)]: registers [func] and returns it. *)
Definition route (self : loc) (path_ : string) (methods_ : option (list string))
    (name_ : option string) (include_in_schema_ : bool) (status_code_ : Z)
    (response_schema : option annotation)
    (request_schemas : option (gmap string annotation)) (func : loc) : M loc :=
  add_route compile_path fuel self path_ func methods_ name_ include_in_schema_
    status_code_ response_schema request_schemas;;
  mret func.

(** [router.websocket_route(path, name)(func)] *)
Definition websocket_route (self : loc) (path_ : string) (name_ : option string)
    (func : loc) : M loc :=
  add_websocket_route compile_path fuel self path_ func name_;;
  mret func.

(** [router.resource(path)(resource)] *)
Definition resource_decorator (self : loc) (path_ : string) (resource : Resource)
  : M Resource :=
  add_resource compile_path fuel self path_ resource;;
  mret resource.

(** The body shared by the eight verb methods: the keyword arguments left
    over, [**request_schemas], always form a dictionary. *)
Definition verb_route (verb : string) (self : loc) (path_ : string)
    (name_ : option string) (include_in_schema_ : bool) (status_code_ : Z)
    (response_schema : option annotation)
    (request_schemas : gmap string annotation) (func : loc) : M loc :=
  route self path_ (Some [verb]) name_ include_in_schema_ status_code_
    response_schema (Some request_schemas) func.

Definition get := verb_route "GET".
Definition put := verb_route "PUT".
Definition post := verb_route "POST".
Definition delete_ := verb_route "DELETE".
Definition options := verb_route "OPTIONS".
Definition head := verb_route "HEAD".
Definition patch := verb_route "PATCH".
Definition trace := verb_route "TRACE".

End Decorators.

(** ** Predicates used in the statements *)

(** A field filed for a path parameter of the given name. *)
Definition is_path_field (n : string) (f : Field) : Prop :=
  name f = n /\ location f = path /\ required f = Some true.

(** Every router of [st] is a router of [st2], with the entries it had, in
    the same places. *)
Definition routes_preserved (st st2 : Store) : Prop :=
  forall a ra, routers st !! a = Some ra ->
    exists ra2, routers st2 !! a = Some ra2 /\ routes ra `prefix_of` routes ra2.

(** A computation that keeps the entries already registered. *)
Definition preserves {A} (c : M A) : Prop :=
  forall st, routes_preserved st (c st).2.

(** The two shapes of a returned result: an entry with the scope object of
    the call, or a not-found handler with no scope. *)
Definition well_shaped (result : outcome * Scope) : Prop :=
  match result.1 with
  | Returned (TEntry _) (Some s) => s = result.2
  | Returned (TNotFound _) None => True
  | Returned _ _ => False
  | _ => True
  end.

(** The string a scope holds under a key, the empty string when there is
    none. *)
Definition scope_string (scope : Scope) (k : string) : string :=
  match scope !! k with
  | Some (VStr s) => s
  | _ => ""
  end.

(** What holds of the fields at every point of the loop. *)
Definition fields_sound (convertors : list string) (hf : handler_fields) : Prop :=
  (forall n f, hf_path hf !! n = Some f ->
     n ∈ convertors /\ n ∉ ["self"; "cls"]
     /\ name f = n /\ location f = path /\ required f = Some true)
  /\ (forall n f, hf_query hf !! n = Some f ->
        n ∉ convertors /\ n ∉ ["self"; "cls"]
        /\ name f = n /\ location f = query /\ is_Some (required f))
  /\ (forall f, hf_body hf = Some f ->
        name f ∉ convertors /\ name f ∉ ["self"; "cls"]
        /\ location f = body /\ required f = None /\ is_Some (field_schema f)).

(** The maps hold under [m] the fields of the handler [h]. *)
Definition filed_under (fuel : nat) (cs : list Component) (convertors : list string)
    (rf : route_fields) (m : string) (h : Function) : Prop :=
  exists hf out,
    _get_fields_from_handler fuel cs convertors h = Some (hf, out)
    /\ rf_query rf !! m = Some (hf_query hf)
    /\ rf_path rf !! m = Some (hf_path hf)
    /\ rf_body rf !! m = Some (hf_body hf)
    /\ rf_output rf !! m = Some out.

(** ** Concrete routers used to exercise the statements *)

Module Examples.

(** A route as the constructor leaves it for a handler without parameters. *)
Definition bare_route (path_ : string) (endpoint_ : loc) (ms : list string) : Route :=
  {| route_path := path_; endpoint := endpoint_; route_name := "handler";
     include_in_schema := true; methods := ms; param_convertors := [];
     query_fields := ∅; path_fields := ∅; body_field := ∅; output_field := ∅;
     status_code := 200 |}.

Definition http_scope (method path_ : string) : Scope :=
  {[ "type" := VStr "http"; "method" := VStr method; "path" := VStr path_;
     "root_path" := VStr "" ]}.

(** Two routes on one path: the first accepts POST only, the second GET. *)
Definition R1 : Route := bare_route "/items" 10 ["POST"].
Definition R2 : Route := bare_route "/items" 11 ["GET"; "HEAD"].

Definition two_routes : Router :=
  {| routes := [ERoute R1; ERoute R2]; components := 0 |}.

Definition store_two_routes : Store :=
  {| routers := {[ 0 := two_routes ]};
     component_lists := {[ 0 := [] ]};
     endpoints := ∅ |}.

Definition child_of (endpoint_ : loc) : Scope :=
  {[ "endpoint" := VObj endpoint_; "path_params" := VParams ∅ ]}.

(** A router with a sub-router mounted at [/mnt]; the sub-router has the
    route [/sub]. *)
Definition sub_route : Route := bare_route "/sub" 12 ["GET"; "HEAD"].

Definition mount_at (path_ : string) (a : loc) : Entry :=
  EMount {| mount_path := path_; mount_app := AppRouter a; mount_name := None |}.

Definition store_mnt : Store :=
  {| routers := {[ 0 := {| routes := [mount_at "/mnt" 1]; components := 0 |};
                   1 := {| routes := [ERoute sub_route]; components := 0 |} ]};
     component_lists := {[ 0 := [] ]};
     endpoints := ∅ |}.

(** Three levels: [/a] holds [/b], which holds the route [/c]. *)
Definition c_route : Route := bare_route "/c" 13 ["GET"; "HEAD"].

Definition store_chain : Store :=
  {| routers := {[ 0 := {| routes := [mount_at "/a" 1]; components := 0 |};
                   1 := {| routes := [mount_at "/b" 3]; components := 0 |};
                   3 := {| routes := [ERoute c_route]; components := 0 |} ]};
     component_lists := {[ 0 := [] ]};
     endpoints := ∅ |}.

(** The same, with a second sub-router mounted at [/x] in the router at
    [/a], registered before the mount at [/b]. *)
Definition store_siblings : Store :=
  {| routers := {[ 0 := {| routes := [mount_at "/a" 1]; components := 0 |};
                   1 := {| routes := [mount_at "/x" 2; mount_at "/b" 3]; components := 0 |};
                   2 := {| routes := []; components := 0 |};
                   3 := {| routes := [ERoute c_route]; components := 0 |} ]};
     component_lists := {[ 0 := [] ]};
     endpoints := ∅ |}.

(** The root path of the scope a call returns. *)
Definition returned_root_path (o : outcome * Scope) : option value :=
  match o.1 with
  | Returned _ (Some scope) => scope !! "root_path"
  | _ => None
  end.

Definition returned_target (o : outcome * Scope) : option target :=
  match o.1 with
  | Returned t _ => Some t
  | _ => None
  end.

(** Handlers for the introspector. *)
Definition handler_of (sig : list Param) : Function :=
  {| fn_name := "handler"; fn_signature := sig; fn_return_annotation := A_empty;
     fn_request_schemas := None; fn_response_schema := None |}.

Definition param (n : string) (a : annotation) (d : option pyvalue) : Param :=
  {| p_name := n; p_annotation := a; p_default := d |}.

(** [def get(self, x: int = 5)], the method of a class-based endpoint. *)
Definition get_method : Function :=
  handler_of [param "self" A_empty None; param "x" A_int (Some (PyInt 5))].

(** A component that claims the parameters annotated with the type
    [A_other 1] and resolves them without parameters of its own, and
    [def show(puppy: Puppy)]. *)
Definition PuppyComponent : Component :=
  {| can_handle_parameter := fun p => bool_decide (p_annotation p = A_other 1);
     resolve := [] |}.

Definition show_puppy : Function := handler_of [param "puppy" (A_other 1) None].

(** [def search(item_id: int = 5, payload: Schema1 = None, q=5, page: OptInt,
    size: int = 10)] *)
Definition search : Function :=
  handler_of [param "item_id" A_int (Some (PyInt 5));
              param "payload" (A_schema 1) (Some PyNone);
              param "q" A_empty (Some (PyInt 5));
              param "page" A_OptInt None;
              param "size" A_int (Some (PyInt 10))].

(** [create(item, note)], decorated with a schema override for [item]. *)
Definition create : Function :=
  {| fn_name := "create";
     fn_signature := [param "item" A_empty None; param "note" A_empty None];
     fn_return_annotation := A_empty;
     fn_request_schemas := Some {[ "item" := A_schema 1 ]};
     fn_response_schema := None |}.

Definition store_create : Store :=
  {| routers := {[ 0 := {| routes := []; components := 0 |} ]};
     component_lists := {[ 0 := [] ]};
     endpoints := {[ 20 := EpFunction create ]} |}.

(** The path compiler on paths without parameters. *)
Definition no_parameters (path_ : string) : list string := [].

(** The schemas a caller passes for [create]. *)
Definition caller_schemas : gmap string annotation :=
  {[ "item" := A_schema 2; "note" := A_schema 3 ]}.

(** Three routers, each with a component list object of its own. *)
Definition store_three : Store :=
  {| routers := {[ 0 := {| routes := []; components := 0 |};
                   1 := {| routes := []; components := 1 |};
                   2 := {| routes := []; components := 2 |} ]};
     component_lists := {[ 0 := []; 1 := [PuppyComponent]; 2 := [] ]};
     endpoints := ∅ |}.

(** A resource named [puppy] with two routes: [list], which has no name of
    its own, and [create], declared with the name [make]. *)
Definition no_kwargs : Kwargs :=
  {| kw_include_in_schema := None; kw_status_code := None;
     kw_response_schema := None; kw_request_schemas := None;
     kw_unexpected := [] |}.

Definition puppy_resource : Resource :=
  {| meta_name := "puppy";
     resource_routes :=
       [ {| rr_key := "list"; rr_func := 30; rr_name := "list";
            rr_meta_path := "/"; rr_meta_methods := Some ["GET"];
            rr_meta_name := None; rr_meta_kwargs := no_kwargs |};
         {| rr_key := "create"; rr_func := 31; rr_name := "create";
            rr_meta_path := "/new"; rr_meta_methods := Some ["POST"];
            rr_meta_name := Some "make"; rr_meta_kwargs := no_kwargs |} ] |}.

(** The two routes are methods of the resource; read from the instance,
    they are bound methods. *)
Definition store_resource : Store :=
  {| routers := {[ 0 := {| routes := []; components := 0 |} ]};
     component_lists := {[ 0 := [] ]};
     endpoints := {[ 30 := EpMethod (handler_of []);
                     31 := EpMethod (handler_of [param "puppy" (A_schema 1) None]) ]} |}.

(** Registrations made after a route is built: the same endpoint under
    another path with other schemas, a websocket route, and the router
    mounted in itself. *)
Definition later_registrations : list (loc * registration) :=
  [ (0, Reg_add_route "/again" 20 (Some ["GET"]) None true 200 (Some (A_schema 9))
          (Some {[ "note" := A_schema 4 ]}));
    (0, Reg_add_websocket_route "/ws" 20 None);
    (0, Reg_mount "/self/" (AppRouter 0) None) ].

(** A request received under the root path [/api]. *)
Definition prefixed_scope : Scope :=
  {[ "type" := VStr "http"; "method" := VStr "GET"; "path" := VStr "/a/b";
     "root_path" := VStr "/api" ]}.

(** The fields of [search] on the path [/{item_id}]. *)
Definition search_fields : handler_fields :=
  from_option fst {| hf_query := ∅; hf_path := ∅; hf_body := None |}
    (_get_fields_from_handler 1 [] ["item_id"] search).

(** [def update(item_id, first: Schema1, second: Schema2, page: int)] *)
Definition update : Function :=
  handler_of [param "item_id" (A_other 7) None;
              param "first" (A_schema 1) None;
              param "second" (A_schema 2) None;
              param "page" A_int None].

(** [def filter(q: int)], with the schema override [q: Schema5]. *)
Definition filter_ : Function :=
  {| fn_name := "filter"; fn_signature := [param "q" A_int None];
     fn_return_annotation := A_empty;
     fn_request_schemas := Some {[ "q" := A_schema 5 ]};
     fn_response_schema := None |}.

(** A component that claims the type [A_other 1] and whose [resolve] asks
    for a parameter of that very type. *)
Definition GreedyComponent : Component :=
  {| can_handle_parameter := fun p => bool_decide (p_annotation p = A_other 1);
     resolve := [param "other" (A_other 1) None] |}.

(** A class-based endpoint with a [get] and a [post] method. *)
Definition puppy_view : Endpoint :=
  EpClass (handler_of [param "scope" A_empty None])
    {[ "get" := handler_of [param "self" A_empty None; param "page" A_OptInt None];
       "post" := handler_of [param "self" A_empty None; param "puppy" (A_schema 1) None] ]}.

Definition store_views : Store :=
  {| routers := {[ 0 := {| routes := []; components := 0 |};
                   1 := {| routes := []; components := 1 |} ]};
     component_lists := {[ 0 := []; 1 := [] ]};
     endpoints := {[ 20 := EpFunction create; 40 := puppy_view;
                     41 := EpFunction search ]} |}.

(** The route a constructor call returns, a bare route if it raises. *)
Definition built (result : res Route * Store) : Route :=
  match result.1 with
  | Ok route_ => route_
  | _ => bare_route "" 0 []
  end.

Definition search_route : Route :=
  built (Route_init no_parameters 1 "/search" 41 0 (Some ["get"]) None true 200 store_views).

Definition view_route : Route :=
  built (Route_init no_parameters 1 "/puppy" 40 0 (Some ["get"; "post"]) None true 200
           store_views).

Definition bare_websocket_route : WebSocketRoute :=
  {| ws_path := ""; ws_endpoint := 0; ws_name := ""; ws_param_convertors := [];
     ws_query_fields := ∅; ws_path_fields := ∅; ws_body_field := ∅;
     ws_output_field := ∅ |}.

Definition search_socket : WebSocketRoute :=
  match (WebSocketRoute_init no_parameters 1 "/ws" 41 0 None store_views).1 with
  | Ok w => w
  | _ => bare_websocket_route
  end.

(** [create], as the bound method of an instance. *)
Definition store_bound_create : Store :=
  {| routers := {[ 0 := {| routes := []; components := 0 |} ]};
     component_lists := {[ 0 := [] ]};
     endpoints := {[ 20 := EpMethod create ]} |}.

(** A mount registered between the two routes on [/items], and a request
    for [/items] received under the root path [/api]. *)
Definition store_mount_between : Store :=
  {| routers := {[ 0 := {| routes := [ERoute R1; mount_at "/x" 2; ERoute R2];
                           components := 0 |};
                   2 := {| routes := []; components := 0 |} ]};
     component_lists := {[ 0 := [] ]};
     endpoints := ∅ |}.

Definition api_items_scope : Scope :=
  {[ "type" := VStr "http"; "method" := VStr "GET"; "path" := VStr "/items";
     "root_path" := VStr "/api" ]}.

End Examples.

(** * Theorems *)

(** ** Route resolution *)

Section RoutingFacts.

Variable matches : Entry -> Scope -> Match * Scope.
Variable st : Store.

Lemma route_loop_skip recurse self mounted pre rest scope partial scope2 partial2 :
  loop_state_after matches mounted pre scope partial = Some (scope2, partial2) ->
  route_loop matches recurse self mounted (pre ++ rest)%list scope partial
  = route_loop matches recurse self mounted rest scope2 partial2.
Proof.
  revert scope partial.
  induction pre as [|e pre IH]; intros scope partial H; simpl in *.
  - by inversion H.
  - destruct (entry_prelude mounted e scope) as [[s rp]|]; [|done].
    destruct (matches e s) as [m c].
    destruct m; [by apply IH | by apply IH | done].
Qed.

Lemma entry_prelude_not_mount mounted e scope :
  is_mount e = false -> entry_prelude mounted e scope = Some (scope, VStr "").
Proof. unfold entry_prelude. by intros ->. Qed.

(** The first entry that matches FULL decides the call, whatever partial
    match the loop remembers by then. *)
Lemma first_full_decides fuel self mounted r pre e post scope partial scope1 scope2 root_path child :
  routers st !! self = Some r ->
  routes r = (pre ++ e :: post)%list ->
  loop_state_after matches mounted pre scope None = Some (scope1, partial) ->
  entry_prelude mounted e scope1 = Some (scope2, root_path) ->
  matches e scope2 = (FULL, child) ->
  get_route_from_scope matches st (S fuel) self scope mounted
  = on_full (fun a s => get_route_from_scope matches st fuel a s true)
      mounted e root_path child (child ∪ scope2).
Proof.
  intros Hr Hrs Hpre Hprel Hm. simpl. rewrite Hr, Hrs.
  rewrite (route_loop_skip _ _ _ _ _ _ _ _ _ Hpre). simpl.
  by rewrite Hprel, Hm.
Qed.

(** When the loop reaches a route [R2] that matches FULL on the scope as the
    loop has left it, having passed over the entries registered before it
    without a FULL match, the call returns [R2] and the scope updated with
    [R2]'s child scope, whatever partial match ([partial]) it remembers from
    the earlier entries. *)
Lemma full_match_beats_partial fuel self mounted r pre R2 post scope scope2 partial child :
  routers st !! self = Some r ->
  routes r = (pre ++ R2 :: post)%list ->
  is_mount R2 = false ->
  loop_state_after matches mounted pre scope None = Some (scope2, partial) ->
  matches R2 scope2 = (FULL, child) ->
  get_route_from_scope matches st (S fuel) self scope mounted
  = (Returned (TEntry R2) (Some (child ∪ scope2)), child ∪ scope2).
Proof.
  intros Hr Hrs Hnm Hpre Hm.
  rewrite (first_full_decides fuel self mounted r pre R2 post scope partial
             scope2 scope2 (VStr "") child Hr Hrs Hpre
             (entry_prelude_not_mount mounted R2 scope2 Hnm) Hm).
  destruct R2; simpl in *; done.
Qed.

Lemma entry_prelude_str_paths mounted e scope :
  str_paths scope = true ->
  exists scope1 root_path,
    entry_prelude mounted e scope = Some (scope1, root_path) /\ str_paths scope1 = true.
Proof.
  unfold str_paths, entry_prelude. intros H.
  apply andb_true_iff in H as [Hp Hr].
  destruct (is_mount e); [|eexists _, _; split; [done|by rewrite Hp, Hr]].
  destruct mounted.
  - eexists _, _. split; [done|].
    rewrite lookup_delete_ne by done. rewrite lookup_delete_eq. by rewrite Hp.
  - destruct (scope !! "path") as [[]|], (scope !! "root_path") as [[]|];
      simpl in *; try done;
      (eexists _, _; split; [done|]);
      by rewrite lookup_insert_eq, lookup_insert_ne, lookup_delete_eq.
Qed.




End RoutingFacts.


(** ** Nested mounts *)

Section MountFacts.

Variable matches : Entry -> Scope -> Match * Scope.
Variable st : Store.

(** Inside a mount, a [Mount] entry that matches FULL hands the scope to its
    sub-router with the root path the loop popped at that entry put before
    the root path of the child scope. *)
Lemma mounted_mount_concatenates fuel self r pre m post a scope scope1 partial child outer inner :
  routers st !! self = Some r ->
  routes r = (pre ++ EMount m :: post)%list ->
  mount_app m = AppRouter a ->
  loop_state_after matches true pre scope None = Some (scope1, partial) ->
  default (VStr "") (scope1 !! "root_path") = VStr outer ->
  matches (EMount m) (delete "root_path" scope1) = (FULL, child) ->
  default (VStr "") (child !! "root_path") = VStr inner ->
  get_route_from_scope matches st (S fuel) self scope true
  = get_route_from_scope matches st fuel a
      (<["root_path" := VStr (outer +:+ inner)]> (child ∪ delete "root_path" scope1)) true.
Proof.
  intros Hr Hrs Ha Hpre Ho Hm Hi.
  rewrite (first_full_decides matches st fuel self true r pre (EMount m) post scope
             partial scope1 (delete "root_path" scope1) (VStr outer) child Hr Hrs Hpre);
    [|by unfold entry_prelude; simpl; rewrite Ho|done].
  simpl. by rewrite Hi, Ha.
Qed.

(** Inside a mount, once the loop has passed over a [Mount] entry, the scope
    has no root path left: the entry popped it, matched or not. *)
Lemma passed_mount_drops_root_path pre scope partial scope1 partial1 :
  loop_state_after matches true pre scope partial = Some (scope1, partial1) ->
  Exists (fun e => is_mount e = true) pre ->
  scope1 !! "root_path" = None.
Proof.
  intros H Hex. revert scope partial H.
  assert (Hkeep : forall pre scope partial,
             scope !! "root_path" = None ->
             loop_state_after matches true pre scope partial = Some (scope1, partial1) ->
             scope1 !! "root_path" = None).
  { clear. induction pre as [|e pre IH]; intros scope partial Hn H; simpl in H.
    - by inversion H; subst.
    - unfold entry_prelude in H. destruct (is_mount e).
      + simpl in H. destruct (matches e (delete "root_path" scope)) as [[] c]; try done;
          eapply IH; try exact H; apply lookup_delete_eq.
      + destruct (matches e scope) as [[] c]; try done; eapply IH; eauto. }
  induction Hex as [e pre He|e pre _ IH]; intros scope partial H; simpl in H.
  - unfold entry_prelude in H. rewrite He in H. simpl in H.
    destruct (matches e (delete "root_path" scope)) as [[] c]; try done;
      eapply Hkeep; try exact H; apply lookup_delete_eq.
  - destruct (entry_prelude true e scope) as [[s rp]|]; [|done].
    destruct (matches e s) as [[] c]; try done; eapply IH; eauto.
Qed.

End MountFacts.

(** The request [/mnt/sub] on a router that mounts at [/mnt] a sub-router
    with the route [/sub]: the inner route, with the scope as the sub-router
    leaves it. *)
Lemma mounted_route_is_found :
  get_route_from_scope Substrate.matches Examples.store_mnt 2 0
    (Examples.http_scope "GET" "/mnt/sub") false
  = (Returned (TEntry (ERoute Examples.sub_route))
       (Some {[ "type" := VStr "http"; "method" := VStr "GET";
                "path" := VStr "/sub"; "root_path" := VStr "/mnt";
                "app_root_path" := VStr ""; "path_params" := VParams ∅;
                "endpoint" := VObj 12 ]}),
     {[ "type" := VStr "http"; "method" := VStr "GET";
        "path" := VStr "/sub"; "root_path" := VStr "/mnt";
        "app_root_path" := VStr ""; "path_params" := VParams ∅;
        "endpoint" := VObj 12 ]}).
Proof. vm_compute. reflexivity. Qed.

(** Along a chain with one mount per level, the root paths add up. *)
Lemma chain_root_path_adds_up :
  Examples.returned_root_path
    (get_route_from_scope Substrate.matches Examples.store_chain 3 0
       (Examples.http_scope "GET" "/a/b/c") false)
  = Some (VStr "/a/b").
Proof. vm_compute. reflexivity. Qed.

(** C6. With a sub-router mounted at [/x] before the one at [/b], the
    request [/a/b/c] still resolves to the route [/c], but the root path of
    the returned scope is [/b]: the root path [/a] of the outer level, popped
    at the mount [/x] that did not match, is lost. *)
Theorem sibling_mount_loses_outer_root_path :
  let result :=
    get_route_from_scope Substrate.matches Examples.store_siblings 3 0
      (Examples.http_scope "GET" "/a/b/c") false in
  Examples.returned_target result = Some (TEntry (ERoute Examples.c_route))
  /\ Examples.returned_root_path result = Some (VStr "/b")
  /\ Examples.returned_root_path result <> Some (VStr "/a/b").
Proof. vm_compute. repeat split; discriminate. Qed.

(** ** Ordered dictionaries *)

Section OdictFacts.

Context {A : Type}.

Implicit Types (d : list (string * A)) (k : string) (v : A).

Lemma odict_set_keys k v d k' :
  k' ∈ (odict_set k v d).*1 <-> k' = k \/ k' ∈ d.*1.
Proof.
  induction d as [|[k0 v0] d IH]; simpl.
  - set_solver.
  - case_bool_decide; subst; simpl; set_solver.
Qed.

Lemma odict_set_NoDup k v d : NoDup d.*1 -> NoDup (odict_set k v d).*1.
Proof.
  induction d as [|[k0 v0] d IH]; simpl; intros Hd.
  - apply NoDup_singleton.
  - apply NoDup_cons in Hd as [Hk0 Hd].
    case_bool_decide; subst; simpl; apply NoDup_cons; split; auto.
    rewrite odict_set_keys. naive_solver.
Qed.

Lemma odict_update_keys d other k' :
  k' ∈ (odict_update d other).*1 <-> k' ∈ d.*1 \/ k' ∈ other.*1.
Proof.
  unfold odict_update. revert d.
  induction other as [|[k v] other IH]; intros d; simpl.
  - set_solver.
  - rewrite IH, odict_set_keys, elem_of_cons. naive_solver.
Qed.

Lemma odict_update_NoDup d other : NoDup d.*1 -> NoDup (odict_update d other).*1.
Proof.
  unfold odict_update. revert d.
  induction other as [|[k v] other IH]; intros d Hd; simpl; [done|].
  by apply IH, odict_set_NoDup.
Qed.

End OdictFacts.

(** ** The resolved parameters of a handler *)

Lemma collect_parameters_NoDup recurse cs sig acc ps :
  NoDup acc.*1 ->
  collect_parameters recurse cs sig acc = Some ps ->
  NoDup ps.*1.
Proof.
  revert acc. induction sig as [|p sig IH]; intros acc Hacc H; simpl in H.
  - by inversion H; subst.
  - destruct (List.find _ cs) as [c|].
    + destruct (recurse (resolve c)) as [sub|]; [|done].
      eapply IH; [|exact H]. by apply odict_update_NoDup.
    + eapply IH; [|exact H]. by apply odict_set_NoDup.
Qed.

Lemma _get_parameters_from_handler_NoDup fuel cs sig ps :
  _get_parameters_from_handler fuel cs sig = Some ps -> NoDup ps.*1.
Proof.
  destruct fuel as [|fuel]; simpl; [done|].
  apply collect_parameters_NoDup. constructor.
Qed.

Lemma collect_parameters_keeps_keys recurse cs sig acc ps k :
  collect_parameters recurse cs sig acc = Some ps ->
  k ∈ acc.*1 -> k ∈ ps.*1.
Proof.
  revert acc. induction sig as [|p sig IH]; intros acc H Hk; simpl in H.
  - by inversion H; subst.
  - destruct (List.find _ cs) as [c|].
    + destruct (recurse (resolve c)) as [sub|]; [|done].
      eapply IH; [exact H|]. rewrite odict_update_keys. by left.
    + eapply IH; [exact H|]. rewrite odict_set_keys. by right.
Qed.

(** A parameter of the handler that no component claims is in the resolved
    set, under its name. *)
Lemma unclaimed_parameter_is_resolved fuel cs sig ps p :
  _get_parameters_from_handler fuel cs sig = Some ps ->
  p ∈ sig ->
  List.find (fun component => can_handle_parameter component p) cs = None ->
  p_name p ∈ ps.*1.
Proof.
  destruct fuel as [|fuel]; simpl; [done|].
  generalize (@nil (string * Param)).
  induction sig as [|q sig IH]; intros acc H Hp Hfind; [by apply elem_of_nil in Hp|].
  simpl in H. apply elem_of_cons in Hp as [->|Hp].
  - rewrite Hfind in H.
    eapply collect_parameters_keeps_keys; [exact H|].
    rewrite odict_set_keys. by left.
  - destruct (List.find (fun component => can_handle_parameter component q) cs) as [c|].
    + destruct (_get_parameters_from_handler fuel cs (resolve c)) as [sub|]; [|done].
      exact (IH _ H Hp Hfind).
    + exact (IH _ H Hp Hfind).
Qed.

(** ** Classification of the resolved parameters *)

Section ClassifyFacts.

Variable convertors : list string.
Variable request_schemas : gmap string annotation.

Lemma classify_path_other acc item n :
  item.1 <> n ->
  hf_path (classify convertors request_schemas acc item) !! n = hf_path acc !! n.
Proof.
  intros Hne. unfold classify.
  destruct (bool_decide (item.1 ∈ ["self"; "cls"])); [done|].
  destruct (bool_decide (item.1 ∈ convertors)); simpl; [by rewrite lookup_insert_ne|].
  destruct (QUERY_SCHEMA_MAPPING _); [by destruct (_ || _)|].
  by destruct (p_annotation _).
Qed.

Lemma classify_query_other acc item n :
  item.1 <> n ->
  hf_query (classify convertors request_schemas acc item) !! n = hf_query acc !! n.
Proof.
  intros Hne. unfold classify.
  destruct (bool_decide (item.1 ∈ ["self"; "cls"])); [done|].
  destruct (bool_decide (item.1 ∈ convertors)); simpl; [done|].
  destruct (QUERY_SCHEMA_MAPPING _).
  - destruct (_ || _); simpl; by rewrite lookup_insert_ne.
  - by destruct (p_annotation _).
Qed.

Lemma classify_path_same acc item :
  item.1 <> "self" -> item.1 <> "cls" -> item.1 ∈ convertors ->
  exists f, hf_path (classify convertors request_schemas acc item) !! item.1 = Some f
            /\ is_path_field item.1 f.
Proof.
  intros Hs Hc Hin. unfold classify.
  rewrite bool_decide_eq_false_2 by set_solver.
  rewrite bool_decide_eq_true_2 by done. simpl.
  rewrite lookup_insert_eq. by eexists.
Qed.

Lemma foldl_classify_path ps acc n :
  n <> "self" -> n <> "cls" -> n ∈ convertors ->
  n ∈ ps.*1 \/ (exists f, hf_path acc !! n = Some f /\ is_path_field n f) ->
  exists f, hf_path (foldl (classify convertors request_schemas) acc ps) !! n = Some f
            /\ is_path_field n f.
Proof.
  intros Hs Hc Hin. revert acc.
  induction ps as [|item ps IH]; intros acc H; simpl in *.
  - destruct H as [H|H]; [by apply elem_of_nil in H|done].
  - apply IH. destruct (decide (item.1 = n)) as [<-|Hne].
    + right. by apply classify_path_same.
    + destruct H as [H|H].
      * apply elem_of_cons in H as [H|H]; [congruence|by left].
      * right. by rewrite classify_path_other.
Qed.

Lemma foldl_classify_query_other ps acc n :
  n ∉ ps.*1 ->
  hf_query (foldl (classify convertors request_schemas) acc ps) !! n = hf_query acc !! n.
Proof.
  revert acc. induction ps as [|item ps IH]; intros acc Hn; simpl in *; [done|].
  apply not_elem_of_cons in Hn as [Hne Hn].
  rewrite IH by done. by apply classify_query_other.
Qed.

Lemma classify_query_same acc n p ctor :
  n <> "self" -> n <> "cls" -> n ∉ convertors ->
  QUERY_SCHEMA_MAPPING (p_annotation (overridden request_schemas n p)) = Some ctor ->
  is_optional_type (p_annotation (overridden request_schemas n p)) = true
  \/ is_Some (p_default p) ->
  hf_query (classify convertors request_schemas acc (n, p)) !! n
  = Some {| name := n; location := query;
            field_schema := call_schema ctor (kw_missing (default PyNone (p_default p)));
            required := Some false |}.
Proof.
  intros Hs Hc Hin Hq Hopt. unfold classify. simpl.
  rewrite bool_decide_eq_false_2 by set_solver.
  rewrite bool_decide_eq_false_2 by done.
  rewrite Hq.
  assert (Hd : p_default (overridden request_schemas n p) = p_default p).
  { unfold overridden. by destruct (request_schemas !! n). }
  rewrite Hd.
  assert (Hb : is_optional_type (p_annotation (overridden request_schemas n p))
               || bool_decide (is_Some (p_default p)) = true).
  { destruct Hopt as [->|Hsome]; [done|].
    rewrite (bool_decide_eq_true_2 _ Hsome). apply orb_true_r. }
  rewrite Hb. simpl. by rewrite lookup_insert_eq.
Qed.

Lemma foldl_classify_query ps acc n p ctor :
  NoDup ps.*1 -> (n, p) ∈ ps ->
  n <> "self" -> n <> "cls" -> n ∉ convertors ->
  QUERY_SCHEMA_MAPPING (p_annotation (overridden request_schemas n p)) = Some ctor ->
  is_optional_type (p_annotation (overridden request_schemas n p)) = true
  \/ is_Some (p_default p) ->
  hf_query (foldl (classify convertors request_schemas) acc ps) !! n
  = Some {| name := n; location := query;
            field_schema := call_schema ctor (kw_missing (default PyNone (p_default p)));
            required := Some false |}.
Proof.
  intros Hnd Hin Hs Hc Hcv Hq Hopt. revert acc Hnd Hin.
  induction ps as [|item ps IH]; intros acc Hnd Hin; simpl in *.
  - by apply elem_of_nil in Hin.
  - apply NoDup_cons in Hnd as [Hfresh Hnd].
    apply elem_of_cons in Hin as [<-|Hin].
    + rewrite foldl_classify_query_other by done.
      by apply classify_query_same.
    + by apply IH.
Qed.

End ClassifyFacts.

(** ** Path and query fields *)

(** C2, as amended.  For every name of the resolved parameter set of a
    handler (its own parameters that no component claims, and those of the
    [resolve] of the components that claim the others) that is not [self] or
    [cls] and is the name of a path parameter of the route, the path fields
    hold under that name a [Field] with location path and required true;
    the default of the parameter plays no part. *)
Theorem path_parameter_field fuel cs convertors handler ps n :
  _get_parameters_from_handler fuel cs (fn_signature handler) = Some ps ->
  n ∈ ps.*1 ->
  n <> "self" -> n <> "cls" ->
  n ∈ convertors ->
  exists hf out f,
    _get_fields_from_handler fuel cs convertors handler = Some (hf, out)
    /\ hf_path hf !! n = Some f
    /\ name f = n /\ location f = path /\ required f = Some true.
Proof.
  intros Hps Hin Hs Hc Hcv. unfold _get_fields_from_handler. rewrite Hps.
  destruct (foldl_classify_path convertors (default ∅ (fn_request_schemas handler))
              ps {| hf_query := ∅; hf_path := ∅; hf_body := None |} n Hs Hc Hcv)
    as (f & Hf & Hname & Hloc & Hreq); [by left|].
  by eexists _, _, f.
Qed.

Lemma path_parameter_field_witness :
  exists hf out f,
    _get_fields_from_handler 1 [] ["x"] Examples.get_method = Some (hf, out)
    /\ hf_path hf !! "x" = Some f
    /\ name f = "x" /\ location f = path /\ required f = Some true.
Proof.
  apply (path_parameter_field 1 [] ["x"] Examples.get_method
           [("self", Examples.param "self" A_empty None);
            ("x", Examples.param "x" A_int (Some (PyInt 5)))] "x").
  - vm_compute; reflexivity.
  - simpl. apply list_elem_of_further, list_elem_of_here.
  - discriminate.
  - discriminate.
  - apply list_elem_of_here.
Defined.

(** C2, as stated, fails on two handlers.  [get(self, x: int = 5)] on the
    path [/{self}/{x}]: the parameter [self] has the name of a path
    parameter, and the only field produced is the one of [x].
    [show(puppy: Puppy)] on the path [/{puppy}] with a component that claims
    [Puppy]: no field is produced. *)
Lemma path_parameter_field_counterexample :
  Examples.param "self" A_empty None ∈ fn_signature Examples.get_method
  /\ (produced_fields ∘ fst <$>
        _get_fields_from_handler 1 [] ["self"; "x"] Examples.get_method)
     = Some [("x", path, Some true)]
  /\ Examples.param "puppy" (A_other 1) None ∈ fn_signature Examples.show_puppy
  /\ (produced_fields ∘ fst <$>
        _get_fields_from_handler 2 [Examples.PuppyComponent] ["puppy"] Examples.show_puppy)
     = Some [].
Proof.
  split; [apply list_elem_of_here|].
  split; [vm_compute; reflexivity|].
  split; [apply list_elem_of_here|].
  vm_compute; reflexivity.
Qed.

(** C3, as amended.  For every parameter of the resolved parameter set that
    is not [self] or [cls], whose name is not a path parameter of the route
    and whose annotation, after the schema override of its name, is a query
    type: when that annotation is an optional query type or the parameter
    has a default, the query fields hold under its name a [Field] with
    required false, whose schema is built with the default as its missing
    value ([None] when there is no default); the schema itself is [None]
    when the annotation is empty. *)
Theorem optional_query_field fuel cs convertors handler ps n p ctor :
  _get_parameters_from_handler fuel cs (fn_signature handler) = Some ps ->
  (n, p) ∈ ps ->
  n <> "self" -> n <> "cls" ->
  n ∉ convertors ->
  QUERY_SCHEMA_MAPPING
    (p_annotation (overridden (default ∅ (fn_request_schemas handler)) n p)) = Some ctor ->
  is_optional_type
    (p_annotation (overridden (default ∅ (fn_request_schemas handler)) n p)) = true
  \/ is_Some (p_default p) ->
  exists hf out,
    _get_fields_from_handler fuel cs convertors handler = Some (hf, out)
    /\ hf_query hf !! n
       = Some {| name := n; location := query;
                 field_schema :=
                   match ctor with
                   | Some t => Some (FieldSchema t (kw_missing (default PyNone (p_default p))))
                   | None => None
                   end;
                 required := Some false |}.
Proof.
  intros Hps Hin Hs Hc Hcv Hq Hopt. unfold _get_fields_from_handler. rewrite Hps.
  eexists _, _. split; [done|].
  by apply foldl_classify_query;
    [apply (_get_parameters_from_handler_NoDup _ _ _ _ Hps)|..].
Qed.

Lemma optional_query_field_witness :
  exists hf out,
    _get_fields_from_handler 1 [] ["item_id"] Examples.search = Some (hf, out)
    /\ hf_query hf !! "page"
       = Some {| name := "page"; location := query;
                 field_schema := Some (FieldSchema Integer (kw_missing PyNone));
                 required := Some false |}.
Proof.
  apply (optional_query_field 1 [] ["item_id"] Examples.search
           ((fun q => (p_name q, q)) <$> fn_signature Examples.search)
           "page" (Examples.param "page" A_OptInt None) (Some Integer)).
  - vm_compute; reflexivity.
  - simpl. do 3 apply list_elem_of_further. apply list_elem_of_here.
  - discriminate.
  - discriminate.
  - intros H. apply list_elem_of_singleton in H. discriminate.
  - vm_compute; reflexivity.
  - left. reflexivity.
Defined.

(** C3, as stated, fails on [search(item_id: int = 5, payload: Schema1 = None,
    q=5, page: OptInt, size: int = 10)] on the path [/{item_id}]: [item_id],
    [payload] and [q] carry a default, yet [item_id] gets a path field with
    required true, [payload] the body field, and the query field of [q] has
    no schema to carry the default. *)
Lemma optional_query_field_counterexample :
  (produced_fields ∘ fst <$>
     _get_fields_from_handler 1 [] ["item_id"] Examples.search)
  = Some [("item_id", path, Some true);
          ("size", query, Some false); ("q", query, Some false);
          ("page", query, Some false);
          ("payload", body, None)]
  /\ (fun r => field_schema <$> (hf_query r.1 !! "q")) <$>
       _get_fields_from_handler 1 [] ["item_id"] Examples.search
     = Some (Some None).
Proof. split; vm_compute; reflexivity. Qed.

(** ** Stripping the trailing slashes *)

Lemma rstrip_slash_spec s :
  exists k, s = rstrip_slash s +:+ slashes k.
Proof.
  induction s as [|c s [k IH]]; [by exists 0|].
  cbn [rstrip_slash]. destruct (rstrip_slash s) as [|c' t] eqn:Hs.
  - destruct (Ascii.eqb c "/") eqn:Hc.
    + apply Ascii.eqb_eq in Hc as ->. exists (S k).
      exact (f_equal (String "/"%char) IH).
    + exists k. exact (f_equal (String c) IH).
  - exists k. exact (f_equal (String c) IH).
Qed.

Lemma rstrip_slash_last s : last_char (rstrip_slash s) <> Some "/"%char.
Proof.
  induction s as [|c s IH]; [done|].
  simpl. destruct (rstrip_slash s) as [|c' t] eqn:Hs.
  - destruct (Ascii.eqb c "/") eqn:Hc; [done|].
    simpl. intros [= ->]. by rewrite Ascii.eqb_refl in Hc.
  - exact IH.
Qed.

Lemma rstrip_slash_idemp s : rstrip_slash (rstrip_slash s) = rstrip_slash s.
Proof.
  induction s as [|c s IH]; [done|].
  cbn [rstrip_slash]. destruct (rstrip_slash s) as [|c' t] eqn:Hs.
  - destruct (Ascii.eqb c "/") eqn:Hc; [done|].
    cbn [rstrip_slash]. by rewrite Hc.
  - change (rstrip_slash (String c (String c' t)))
      with (match rstrip_slash (String c' t) with
            | EmptyString => if Ascii.eqb c "/" then EmptyString else String c EmptyString
            | u => String c u
            end).
    by rewrite IH.
Qed.

Lemma prefix_slash s :
  String.prefix "/" s = true -> exists s', s = String "/"%char s'.
Proof.
  destruct s as [|c s]; [done|]. cbn [String.prefix].
  destruct (Ascii.ascii_dec "/" c) as [<-|]; [eauto|done].
Qed.

Lemma rstrip_slash_routed s :
  s = "" \/ String.prefix "/" s = true ->
  negb (bool_decide (rstrip_slash s = "") || String.prefix "/" (rstrip_slash s)) = false.
Proof.
  intros [->|H]; [done|].
  apply prefix_slash in H as [s' ->]. cbn [rstrip_slash].
  destruct (rstrip_slash s') as [|c' t]; [done|].
  apply negb_false_iff, orb_true_iff. right. reflexivity.
Qed.

(** ** Registration *)

Ltac unfold_M :=
  unfold mbind, M_bind, mret, M_ret, raise, lift, get_router, get_endpoint,
    get_components, set_router, set_endpoint in *.

Section RegistrationFacts.

Variable compile_path : string -> list string.
Variable fuel : nat.

(** The constructor of a route reads the store and leaves it as it is. *)
Lemma Route_init_store path_ endpoint_ router methods_ name_ iis sc st result st' :
  Route_init compile_path fuel path_ endpoint_ router methods_ name_ iis sc st
  = (result, st') ->
  st' = st.
Proof.
  unfold Route_init. destruct (negb _); unfold_M; [by intros [= _ <-]|].
  destruct (endpoints st !! endpoint_) as [ep|]; [|by intros [= _ <-]].
  destruct (routers st !! router) as [r|]; [|by intros [= _ <-]].
  destruct (component_lists st !! components r) as [cs|]; [|by intros [= _ <-]].
  destruct (_get_fields _ _ _ _ _); by intros [= _ <-].
Qed.

(** What a route that the constructor returns is made of: its field maps
    are those [_get_fields] computes from the endpoint and from the
    component list of the router, as the store holds them at that moment. *)
Lemma Route_init_ok path_ endpoint_ router methods_ name_ iis sc st route st' :
  Route_init compile_path fuel path_ endpoint_ router methods_ name_ iis sc st
  = (Ok route, st') ->
  exists ep r cs fields,
    endpoints st !! endpoint_ = Some ep
    /\ routers st !! router = Some r
    /\ component_lists st !! components r = Some cs
    /\ _get_fields fuel cs (compile_path path_) ep (Some (methods route)) = Ok fields
    /\ query_fields route = rf_query fields
    /\ path_fields route = rf_path fields
    /\ body_field route = rf_body fields
    /\ output_field route = rf_output fields
    /\ route_path route = path_
    /\ route_name route = default (fn_name (endpoint_object ep)) name_
    /\ param_convertors route = compile_path path_.
Proof.
  unfold Route_init. destruct (negb _); unfold_M; [done|].
  destruct (endpoints st !! endpoint_) as [ep|] eqn:Hep; [|done].
  destruct (routers st !! router) as [r|] eqn:Hr; [|done].
  destruct (component_lists st !! components r) as [cs|] eqn:Hcs; [|done].
  destruct (_get_fields _ _ _ _ _) as [fields| |] eqn:Hf; [|done..].
  intros [= <- <-]. by exists ep, r, cs, fields.
Qed.

(** [append_route] on a router of the store. *)
Lemma append_route_ok self e st r :
  routers st !! self = Some r ->
  append_route self e st
  = (Ok tt, {| routers := <[self := {| routes := routes r ++ [e];
                                       components := components r |}]> (routers st);
               component_lists := component_lists st;
               endpoints := endpoints st |}).
Proof. intros H. unfold append_route. unfold_M. by rewrite H. Qed.

(** C10. On an endpoint that carries a non-empty [_request_schemas],
    [add_route] called with [request_schemas] left at [None] raises
    [AttributeError]; no route is built and the store, the route list of the
    router with it, is as before the call. *)
Theorem add_route_without_schemas_raises st self path_ endpoint_ ep attached
    methods_ name_ iis sc response_schema :
  endpoints st !! endpoint_ = Some ep ->
  fn_request_schemas (endpoint_object ep) = Some attached ->
  attached <> ∅ ->
  add_route compile_path fuel self path_ endpoint_ methods_ name_ iis sc
    response_schema None st
  = (Raise AttributeError, st).
Proof.
  intros Hep Hatt Hne. unfold add_route. unfold_M.
  rewrite Hep. unfold merged_request_schemas. rewrite Hatt.
  by rewrite bool_decide_eq_false_2.
Qed.

(** [add_route], once the endpoint is found and the request schemas are
    merged: the attribute writes, then the constructor, then the append. *)
Lemma add_route_unfold st self path_ endpoint_ ep merged methods_ name_ iis sc
    response_schema request_schemas :
  endpoints st !! endpoint_ = Some ep ->
  accepts_attributes ep = true ->
  merged_request_schemas (fn_request_schemas (endpoint_object ep)) request_schemas
  = Ok merged ->
  add_route compile_path fuel self path_ endpoint_ methods_ name_ iis sc
    response_schema request_schemas st
  = (route ← Route_init compile_path fuel path_ endpoint_ self methods_ name_ iis sc;
     append_route self (ERoute route))
      (with_endpoint endpoint_ (attach_schemas merged response_schema ep) st).
Proof.
  intros Hep Hacc Hm. unfold add_route, with_endpoint. unfold_M.
  by rewrite Hep, Hm, Hacc.
Qed.

(** A call of [add_route] that returns. *)
Lemma add_route_ok st self path_ endpoint_ methods_ name_ iis sc
    response_schema request_schemas st2 :
  add_route compile_path fuel self path_ endpoint_ methods_ name_ iis sc
    response_schema request_schemas st = (Ok tt, st2) ->
  exists ep merged route r,
    endpoints st !! endpoint_ = Some ep
    /\ merged_request_schemas (fn_request_schemas (endpoint_object ep)) request_schemas
       = Ok merged
    /\ Route_init compile_path fuel path_ endpoint_ self methods_ name_ iis sc
         (with_endpoint endpoint_ (attach_schemas merged response_schema ep) st)
       = (Ok route, with_endpoint endpoint_ (attach_schemas merged response_schema ep) st)
    /\ routers st !! self = Some r
    /\ st2 = {| routers := <[self := {| routes := routes r ++ [ERoute route];
                                        components := components r |}]> (routers st);
                component_lists := component_lists st;
                endpoints := <[endpoint_ := attach_schemas merged response_schema ep]>
                               (endpoints st) |}.
Proof.
  intros H.
  destruct (endpoints st !! endpoint_) as [ep|] eqn:Hep;
    [|by unfold add_route in H; unfold_M; rewrite Hep in H].
  destruct (merged_request_schemas (fn_request_schemas (endpoint_object ep))
              request_schemas) as [merged| |] eqn:Hm;
    [|by unfold add_route in H; unfold_M; rewrite Hep, Hm in H..].
  destruct (accepts_attributes ep) eqn:Hacc;
    [|by unfold add_route in H; unfold_M; rewrite Hep, Hm, Hacc in H].
  rewrite (add_route_unfold _ _ _ _ _ _ _ _ _ _ _ _ Hep Hacc Hm) in H.
  unfold mbind, M_bind in H.
  destruct (Route_init _ _ _ _ _ _ _ _ _ _) as [[route| |] st1] eqn:Hri; [|done..].
  pose proof (Route_init_store _ _ _ _ _ _ _ _ _ _ Hri) as ->.
  destruct (Route_init_ok _ _ _ _ _ _ _ _ _ _ Hri) as (ep' & r & cs & fields & _ & Hr & _).
  rewrite (append_route_ok _ _ _ _ Hr) in H. injection H as <-.
  exists ep, merged, route, r. repeat split; done.
Qed.

(** ** Registration leaves the entries already registered as they are *)

Lemma routes_preserved_refl st : routes_preserved st st.
Proof. intros a ra H. by exists ra. Qed.

Lemma routes_preserved_trans st1 st2 st3 :
  routes_preserved st1 st2 -> routes_preserved st2 st3 -> routes_preserved st1 st3.
Proof.
  intros H12 H23 a ra H.
  destruct (H12 a ra H) as (ra2 & H2 & P2).
  destruct (H23 a ra2 H2) as (ra3 & H3 & P3).
  exists ra3. split; [done|]. by etrans.
Qed.

Lemma preserves_bind {A B} (c : M A) (f : A -> M B) :
  preserves c -> (forall a, preserves (f a)) -> preserves (c ≫= f).
Proof.
  intros Hc Hf st. specialize (Hc st). unfold mbind, M_bind.
  destruct (c st) as [[a| |] st1]; simpl in *; [|done..].
  eapply routes_preserved_trans; [exact Hc|apply Hf].
Qed.

Lemma preserves_reader {A} (c : M A) :
  (forall st, (c st).2 = st) -> preserves c.
Proof. intros H st. rewrite H. apply routes_preserved_refl. Qed.

Lemma preserves_set_endpoint a ep : preserves (set_endpoint a ep).
Proof. intros st b rb H. by exists rb. Qed.

Lemma preserves_append_route self e : preserves (append_route self e).
Proof.
  intros st. unfold append_route. unfold_M.
  destruct (routers st !! self) as [r|] eqn:Hr; simpl; [|apply routes_preserved_refl].
  intros b rb H. simpl.
  destruct (decide (self = b)) as [<-|Hne].
  - eexists. rewrite lookup_insert_eq. split; [done|].
    simpl. rewrite Hr in H. injection H as <-. by apply prefix_app_r.
  - exists rb. by rewrite lookup_insert_ne.
Qed.

Lemma preserves_Route_init path_ endpoint_ router methods_ name_ iis sc :
  preserves (Route_init compile_path fuel path_ endpoint_ router methods_ name_ iis sc).
Proof.
  apply preserves_reader. intros st.
  destruct (Route_init _ _ _ _ _ _ _ _ _ st) as [result st'] eqn:H.
  by apply Route_init_store in H.
Qed.

Lemma preserves_WebSocketRoute_init path_ endpoint_ router name_ :
  preserves (WebSocketRoute_init compile_path fuel path_ endpoint_ router name_).
Proof.
  apply preserves_reader. intros st. unfold WebSocketRoute_init.
  destruct (negb _); unfold_M; [done|].
  destruct (endpoints st !! endpoint_) as [ep|]; [|done].
  destruct (routers st !! router) as [r|]; [|done].
  destruct (component_lists st !! components r) as [cs|]; [|done].
  by destruct (_get_fields _ _ _ _ _).
Qed.

Lemma preserves_add_route self path_ endpoint_ methods_ name_ iis sc resp reqs :
  preserves (add_route compile_path fuel self path_ endpoint_ methods_ name_ iis sc
               resp reqs).
Proof.
  unfold add_route.
  apply preserves_bind; [by apply preserves_reader; intros st; unfold_M;
                           destruct (endpoints st !! endpoint_)|].
  intros ep. apply preserves_bind; [by apply preserves_reader|].
  intros merged. apply preserves_bind;
    [destruct (accepts_attributes ep);
       [apply preserves_set_endpoint|by apply preserves_reader]|].
  intros _. apply preserves_bind; [apply preserves_Route_init|].
  intros route. apply preserves_append_route.
Qed.

Lemma preserves_add_websocket_route self path_ endpoint_ name_ :
  preserves (add_websocket_route compile_path fuel self path_ endpoint_ name_).
Proof.
  unfold add_websocket_route.
  apply preserves_bind; [apply preserves_WebSocketRoute_init|].
  intros route. apply preserves_append_route.
Qed.

Lemma preserves_mount self path_ app name_ : preserves (mount self path_ app name_).
Proof.
  unfold mount. apply preserves_bind.
  - destruct app as [a|n]; [|by apply preserves_reader].
    intros st. unfold_M.
    destruct (routers st !! self) as [r|]; simpl; [|apply routes_preserved_refl].
    destruct (routers st !! a) as [ra|] eqn:Ha; simpl; [|apply routes_preserved_refl].
    intros b rb H. simpl. destruct (decide (a = b)) as [<-|Hne].
    + eexists. rewrite lookup_insert_eq. split; [done|].
      simpl. rewrite Ha in H. by injection H as <-.
    + exists rb. by rewrite lookup_insert_ne.
  - intros _. apply preserves_bind.
    + apply preserves_reader. intros st. unfold Mount_init.
      by destruct (negb _).
    + intros route. apply preserves_append_route.
Qed.

Lemma preserves_add_resource self path_ resource :
  preserves (add_resource compile_path fuel self path_ resource).
Proof.
  unfold add_resource.
  induction (resource_routes resource) as [|route rs IH]; simpl.
  - by apply preserves_reader.
  - apply preserves_bind; [|by intros _].
    unfold add_resource_route.
    destruct (kw_unexpected _); [apply preserves_add_route|by apply preserves_reader].
Qed.

Lemma preserves_register self op : preserves (register compile_path fuel self op).
Proof.
  destruct op; simpl;
    auto using preserves_add_route, preserves_add_websocket_route,
      preserves_mount, preserves_add_resource.
Qed.

Lemma register_all_preserved ops st :
  routes_preserved st (register_all compile_path fuel ops st).
Proof.
  revert st. induction ops as [|[self op] ops IH]; intros st; simpl.
  - apply routes_preserved_refl.
  - eapply routes_preserved_trans; [apply preserves_register|apply IH].
Qed.

(** An entry of a router stays in its place, unchanged, through any
    sequence of registrations. *)
Lemma registered_entry_stays ops st a ra i e :
  routers st !! a = Some ra ->
  routes ra !! i = Some e ->
  exists ra2,
    routers (register_all compile_path fuel ops st) !! a = Some ra2
    /\ routes ra2 !! i = Some e.
Proof.
  intros Ha Hi.
  destruct (register_all_preserved ops st a ra Ha) as (ra2 & H2 & [k Hk]).
  exists ra2. split; [done|]. rewrite Hk. by apply lookup_app_l_Some.
Qed.

(** On a function or a class that carries non-empty schema overrides,
    [add_route] called with request schemas of its own writes to the endpoint
    the overrides attached, completed by the caller's schemas for the names
    that have no attached override; whatever happens next, the endpoint keeps
    them; and when the constructor then returns a route, that route is
    appended to the routes of the router. *)
Lemma attached_schemas_take_precedence st self path_ endpoint_ ep attached rs
    methods_ name_ iis sc response_schema :
  endpoints st !! endpoint_ = Some ep ->
  accepts_attributes ep = true ->
  fn_request_schemas (endpoint_object ep) = Some attached ->
  attached <> ∅ ->
  let ep2 := attach_schemas (Some (attached ∪ rs)) response_schema ep in
  let call := add_route compile_path fuel self path_ endpoint_ methods_ name_ iis sc
                response_schema (Some rs) st in
  fn_request_schemas (endpoint_object ep2) = Some (attached ∪ rs)
  /\ (forall n a, attached !! n = Some a -> (attached ∪ rs) !! n = Some a)
  /\ (forall n, attached !! n = None -> (attached ∪ rs) !! n = rs !! n)
  /\ endpoints call.2 !! endpoint_ = Some ep2
  /\ (forall route r,
        Route_init compile_path fuel path_ endpoint_ self methods_ name_ iis sc
          (with_endpoint endpoint_ ep2 st)
        = (Ok route, with_endpoint endpoint_ ep2 st) ->
        routers st !! self = Some r ->
        call.1 = Ok tt
        /\ routers call.2 !! self
           = Some {| routes := routes r ++ [ERoute route]; components := components r |}).
Proof.
  intros Hep Hacc Hatt Hne ep2 call.
  assert (Hm : merged_request_schemas (fn_request_schemas (endpoint_object ep)) (Some rs)
               = Ok (Some (attached ∪ rs))).
  { unfold merged_request_schemas. rewrite Hatt. by rewrite bool_decide_eq_false_2. }
  assert (Hcall : call
            = (route ← Route_init compile_path fuel path_ endpoint_ self methods_ name_ iis sc;
               append_route self (ERoute route)) (with_endpoint endpoint_ ep2 st))
    by exact (add_route_unfold _ _ _ _ _ _ _ _ _ _ _ _ Hep Hacc Hm).
  split; [|split; [|split; [|split]]].
  - subst ep2. unfold attach_schemas.
    destruct ep; [..|done]; simpl; by destruct (fn_response_schema _).
  - intros n a Ha. by apply lookup_union_Some_l.
  - intros n Ha. by apply lookup_union_r.
  - rewrite Hcall. unfold mbind, M_bind.
    destruct (Route_init _ _ _ _ _ _ _ _ _ _) as [[route| |] st1] eqn:Hri;
      pose proof (Route_init_store _ _ _ _ _ _ _ _ _ _ Hri) as ->; simpl;
      [|apply lookup_insert_eq..].
    unfold append_route. unfold_M. simpl.
    destruct (routers st !! self); simpl; apply lookup_insert_eq.
  - intros route r Hri Hr. rewrite Hcall. unfold mbind, M_bind. rewrite Hri.
    rewrite (append_route_ok self (ERoute route) (with_endpoint endpoint_ ep2 st) r Hr).
    simpl. by rewrite lookup_insert_eq.
Qed.

(** C4. A route that [add_route] has built has the field maps that
    [_get_fields] computes from the endpoint and from the component list of
    the router as they are when it is built, and it stays in its place in the
    routes of the router, with these field maps, through any sequence of
    registrations on any routers. *)
Theorem built_route_keeps_its_fields st0 self path_ endpoint_ methods_ name_ iis sc
    response_schema request_schemas st :
  add_route compile_path fuel self path_ endpoint_ methods_ name_ iis sc
    response_schema request_schemas st0 = (Ok tt, st) ->
  exists route r0 ep cs fields,
    routers st0 !! self = Some r0
    /\ component_lists st0 !! components r0 = Some cs
    /\ endpoints st !! endpoint_ = Some ep
    /\ _get_fields fuel cs (compile_path path_) ep (Some (methods route)) = Ok fields
    /\ query_fields route = rf_query fields
    /\ path_fields route = rf_path fields
    /\ body_field route = rf_body fields
    /\ output_field route = rf_output fields
    /\ forall ops,
         exists r2,
           routers (register_all compile_path fuel ops st) !! self = Some r2
           /\ routes r2 !! List.length (routes r0) = Some (ERoute route).
Proof.
  intros H.
  destruct (add_route_ok _ _ _ _ _ _ _ _ _ _ _ H)
    as (ep0 & merged & route & r0 & Hep0 & Hm & Hri & Hr0 & ->).
  destruct (Route_init_ok _ _ _ _ _ _ _ _ _ _ Hri)
    as (ep & r & cs & fields & Hep & Hr & Hcs & Hf & Hq & Hp & Hb & Ho & _).
  simpl in Hr, Hcs, Hep. rewrite Hr0 in Hr. injection Hr as <-.
  exists route, r0, ep, cs, fields.
  repeat split; try done.
  intros ops. eapply registered_entry_stays.
  - simpl. apply lookup_insert_eq.
  - simpl. by rewrite lookup_app_r, Nat.sub_diag.
Qed.

(** ** Router.mount *)

Lemma mount_router_ok st self a path_ name_ r ra :
  routers st !! self = Some r ->
  routers st !! a = Some ra ->
  path_ = "" \/ String.prefix "/" path_ = true ->
  exists st2 r2 ra2,
    mount self path_ (AppRouter a) name_ st = (Ok tt, st2)
    /\ routers st2 !! self = Some r2
    /\ routes r2 = (routes r ++ [EMount {| mount_path := rstrip_slash path_;
                                           mount_app := AppRouter a;
                                           mount_name := name_ |}])%list
    /\ components r2 = components r
    /\ routers st2 !! a = Some ra2
    /\ components ra2 = components r
    /\ component_lists st2 = component_lists st.
Proof.
  intros Hr Ha Hpath. unfold mount, Mount_init, append_route. unfold_M.
  rewrite Hr, Ha. simpl. rewrite (rstrip_slash_routed _ Hpath). simpl.
  rewrite rstrip_slash_idemp.
  destruct (decide (a = self)) as [->|Hne].
  - rewrite lookup_insert_eq. simpl.
    rewrite Hr in Ha. injection Ha as <-.
    eexists _, _, _. split; [done|]. simpl.
    rewrite lookup_insert_eq. by repeat split.
  - rewrite lookup_insert_ne by done. rewrite Hr.
    eexists _, _, _. split; [done|]. simpl.
    rewrite lookup_insert_eq.
    rewrite lookup_insert_ne by done. rewrite lookup_insert_eq.
    by repeat split.
Qed.

(** C5. Mounting a router at [a] under the router at [self]: the entry
    appended is a [Mount] whose path is the path given without its trailing
    slashes, and the router at [a] refers from then on to the component list
    object of the router at [self], the very same object; mounting it again
    under another router makes it refer to the list of that one. *)
Theorem mount_strips_and_shares st self a path_ name_ r ra :
  routers st !! self = Some r ->
  routers st !! a = Some ra ->
  path_ = "" \/ String.prefix "/" path_ = true ->
  exists st2 r2 ra2,
    mount self path_ (AppRouter a) name_ st = (Ok tt, st2)
    /\ routers st2 !! self = Some r2
    /\ routes r2 = (routes r ++ [EMount {| mount_path := rstrip_slash path_;
                                           mount_app := AppRouter a;
                                           mount_name := name_ |}])%list
    /\ (exists k, path_ = rstrip_slash path_ +:+ slashes k)
    /\ last_char (rstrip_slash path_) <> Some "/"%char
    /\ routers st2 !! a = Some ra2
    /\ components ra2 = components r
    /\ component_lists st2 = component_lists st
    /\ forall parent path2 name2 rp,
         routers st2 !! parent = Some rp ->
         path2 = "" \/ String.prefix "/" path2 = true ->
         exists st3 ra3,
           mount parent path2 (AppRouter a) name2 st2 = (Ok tt, st3)
           /\ routers st3 !! a = Some ra3
           /\ components ra3 = components rp.
Proof.
  intros Hr Ha Hpath.
  destruct (mount_router_ok st self a path_ name_ r ra Hr Ha Hpath)
    as (st2 & r2 & ra2 & Hm & Hr2 & Hroutes & _ & Ha2 & Hc & Hl).
  exists st2, r2, ra2.
  repeat (split; [first [done|apply rstrip_slash_spec|apply rstrip_slash_last]|]).
  intros parent path2 name2 rp Hp Hpath2.
  destruct (mount_router_ok st2 parent a path2 name2 rp ra2 Hp Ha2 Hpath2)
    as (st3 & _ & ra3 & Hm3 & _ & _ & _ & Ha3 & Hc3 & _).
  by exists st3, ra3.
Qed.

(** ** Router.add_resource *)

(** A call of [add_route] that returns appends one route, with the path
    and, when one is given, the name of the call. *)
Lemma add_route_appends st self path_ endpoint_ methods_ name_ iis sc
    response_schema request_schemas st2 r :
  add_route compile_path fuel self path_ endpoint_ methods_ name_ iis sc
    response_schema request_schemas st = (Ok tt, st2) ->
  routers st !! self = Some r ->
  exists route,
    routers st2 !! self
    = Some {| routes := routes r ++ [ERoute route]; components := components r |}
    /\ route_path route = path_
    /\ route_name route = default (route_name route) name_.
Proof.
  intros H Hr.
  destruct (add_route_ok _ _ _ _ _ _ _ _ _ _ _ H)
    as (ep0 & merged & route & r0 & Hep0 & Hm & Hri & Hr0 & ->).
  destruct (Route_init_ok _ _ _ _ _ _ _ _ _ _ Hri)
    as (ep & rr & cs & fields & _ & _ & _ & _ & _ & _ & _ & _ & Hpath & Hname & _).
  rewrite Hr in Hr0. injection Hr0 as <-.
  exists route. simpl. rewrite lookup_insert_eq. split; [done|]. split; [done|].
  rewrite Hname. by destruct name_.
Qed.

(** When [add_resource] returns (its routes are functions or classes, which
    take the attributes [add_route] writes), the routes of the router are
    those it had, followed by one route for each route of the resource, in
    order: its
    path is the path given, then the name of the resource, then the path of
    the resource route; its name is the name of the resource route if it has
    one, and the name of the resource, a dash and the name of the handler if
    not. *)
Lemma add_resource_paths_and_names st self path_ resource r st2 :
  routers st !! self = Some r ->
  add_resource compile_path fuel self path_ resource st = (Ok tt, st2) ->
  exists r2 built,
    routers st2 !! self = Some r2
    /\ routes r2 = (routes r ++ (ERoute <$> built))%list
    /\ Forall2
         (fun declared route =>
            route_path route = path_ +:+ meta_name resource +:+ rr_meta_path declared
            /\ route_name route
               = match rr_meta_name declared with
                 | Some n => n
                 | None => meta_name resource +:+ "-" +:+ rr_name declared
                 end)
         (resource_routes resource) built.
Proof.
  unfold add_resource. revert st r.
  induction (resource_routes resource) as [|declared rs IH]; intros st r Hr H; simpl in H.
  - unfold_M. injection H as <-. exists r, []. simpl.
    rewrite app_nil_r. by repeat split.
  - unfold mbind, M_bind in H.
    destruct (add_resource_route _ _ _ _ _ _ st) as [[[]| |] st1] eqn:Hone; [|done..].
    unfold add_resource_route in Hone.
    destruct (kw_unexpected _); [|done].
    destruct (add_route_appends _ _ _ _ _ _ _ _ _ _ _ _ Hone Hr)
      as (route & Hr1 & Hpath & Hname).
    destruct (IH st1 _ Hr1 H) as (r2 & built & Hr2 & Hroutes & Hall).
    exists r2, (route :: built). split; [done|]. split.
    + rewrite Hroutes. simpl. by rewrite <- app_assoc.
    + constructor; [|done]. split; [done|].
      rewrite Hname. simpl. by destruct (rr_meta_name declared).
Qed.

End RegistrationFacts.

Lemma add_route_without_schemas_raises_witness :
  add_route Examples.no_parameters 1 0 "/items" 20 None None true 200 None None
    Examples.store_create
  = (Raise AttributeError, Examples.store_create).
Proof.
  apply (add_route_without_schemas_raises Examples.no_parameters 1
           Examples.store_create 0 "/items" 20 (EpFunction Examples.create)
           {[ "item" := A_schema 1 ]}).
  - vm_compute; reflexivity.
  - reflexivity.
  - intros H. apply (f_equal (fun m => m !! "item")) in H. vm_compute in H. discriminate.
Defined.

Lemma built_route_keeps_its_fields_witness :
  exists r2 route,
    routers (register_all Examples.no_parameters 1 Examples.later_registrations
               (add_route Examples.no_parameters 1 0 "/items" 20 (Some ["POST"]) None
                  true 201 None (Some Examples.caller_schemas) Examples.store_create).2)
      !! 0 = Some r2
    /\ routes r2 !! 0 = Some (ERoute route).
Proof.
  destruct (built_route_keeps_its_fields Examples.no_parameters 1
              Examples.store_create 0 "/items" 20 (Some ["POST"]) None true 201 None
              (Some Examples.caller_schemas)
              (add_route Examples.no_parameters 1 0 "/items" 20 (Some ["POST"]) None
                 true 201 None (Some Examples.caller_schemas) Examples.store_create).2)
    as (route & r0 & ep & cs & fields & Hr0 & _ & _ & _ & _ & _ & _ & _ & Hops).
  - vm_compute; reflexivity.
  - destruct (Hops Examples.later_registrations) as (r2 & Hr2 & Hi).
    exists r2, route. split; [done|].
    vm_compute in Hr0. injection Hr0 as <-. exact Hi.
Defined.

Lemma mount_strips_and_shares_witness :
  exists st2 st3 r2,
    mount 0 "/mnt//" (AppRouter 1) None Examples.store_three = (Ok tt, st2)
    /\ routers st2 !! 0 = Some r2
    /\ routes r2 = [Examples.mount_at "/mnt" 1]
    /\ (components <$> (routers st2 !! 1)) = Some 0
    /\ mount 2 "/other" (AppRouter 1) None st2 = (Ok tt, st3)
    /\ (components <$> (routers st3 !! 1)) = Some 2.
Proof.
  destruct (mount_strips_and_shares Examples.store_three 0 1 "/mnt//" None
              {| routes := []; components := 0 |} {| routes := []; components := 1 |})
    as (st2 & r2 & ra2 & Hm & Hr2 & Hroutes & _ & _ & Ha2 & Hc & _ & Hagain).
  - vm_compute; reflexivity.
  - vm_compute; reflexivity.
  - right. reflexivity.
  - destruct (Hagain 2 "/other" None {| routes := []; components := 2 |})
      as (st3 & ra3 & Hm3 & Ha3 & Hc3).
    + assert (Hst2 : st2 = (mount 0 "/mnt//" (AppRouter 1) None Examples.store_three).2)
        by (by rewrite Hm).
      rewrite Hst2. vm_compute; reflexivity.
    + right. reflexivity.
    + exists st2, st3, r2.
      split; [exact Hm|]. split; [exact Hr2|].
      split; [rewrite Hroutes; reflexivity|].
      split; [exact (eq_trans (f_equal (fmap components) Ha2) (f_equal Some Hc))|].
      split; [exact Hm3|].
      exact (eq_trans (f_equal (fmap components) Ha3) (f_equal Some Hc3)).
Defined.

(** * Further properties of the module *)

(** ** Route resolution: partial matches, the shape of the result *)

Section ResolutionFacts.

Variable matches : Entry -> Scope -> Match * Scope.
Variable st : Store.

Lemma loop_state_after_keeps_partial mounted rs scope x scope' partial :
  loop_state_after matches mounted rs scope (Some x) = Some (scope', partial) ->
  partial = Some x.
Proof.
  revert scope. induction rs as [|e rs IH]; intros scope H; simpl in H.
  - by inversion H.
  - destruct (entry_prelude mounted e scope) as [[s rp]|]; [|done].
    destruct (matches e s) as [[] c]; try done; by eapply IH.
Qed.

(** X1. When no entry matches FULL, the call returns the first entry that
    matched PARTIAL, with the scope (as the loop has left it) updated by the
    child scope of that entry; later partial matches are not remembered. *)
Theorem first_partial_is_returned fuel self mounted r pre e post scope
    scope1 scope2 root_path child scope3 partial :
  routers st !! self = Some r ->
  routes r = (pre ++ e :: post)%list ->
  loop_state_after matches mounted pre scope None = Some (scope1, None) ->
  entry_prelude mounted e scope1 = Some (scope2, root_path) ->
  matches e scope2 = (PARTIAL, child) ->
  loop_state_after matches mounted post scope2 (Some (e, child)) = Some (scope3, partial) ->
  get_route_from_scope matches st (S fuel) self scope mounted
  = (Returned (TEntry e) (Some (child ∪ scope3)), child ∪ scope3).
Proof.
  intros Hr Hrs Hpre Hprel Hm Hpost. simpl. rewrite Hr, Hrs.
  rewrite (route_loop_skip _ _ _ _ _ _ _ _ _ _ Hpre). simpl.
  rewrite Hprel, Hm.
  pose proof (loop_state_after_keeps_partial _ _ _ _ _ _ Hpost) as ->.
  rewrite <- (app_nil_r post).
  by rewrite (route_loop_skip _ _ _ _ _ _ _ _ _ _ Hpost).
Qed.

Lemma route_loop_well_shaped recurse self mounted rs scope partial :
  (forall a s, well_shaped (recurse a s)) ->
  well_shaped (route_loop matches recurse self mounted rs scope partial).
Proof.
  intros Hrec. revert scope partial.
  induction rs as [|e rs IH]; intros scope partial; simpl.
  - by destruct partial as [[p ps]|].
  - destruct (entry_prelude mounted e scope) as [[s rp]|]; [|done].
    destruct (matches e s) as [[] c]; [apply IH|apply IH|].
    unfold on_full. destruct e as [x|x|m]; [done|done|].
    destruct mounted.
    + destruct (py_add _ _); [|done]. by destruct (mount_app m).
    + by destruct (mount_app m).
Qed.

Lemma get_route_from_scope_well_shaped fuel self scope mounted :
  well_shaped (get_route_from_scope matches st fuel self scope mounted).
Proof.
  revert self scope mounted.
  induction fuel as [|fuel IH]; intros self scope mounted; simpl; [done|].
  destruct (routers st !! self); [|done].
  apply route_loop_well_shaped. intros a s. apply IH.
Qed.

(** X2. Whatever the call returns, through any depth of mounts: a matched
    entry comes with the very scope the call has been updating, and a
    not-found handler comes with no scope. *)
Theorem returned_scope_is_the_scope_of_the_call fuel self scope mounted t s scope' :
  get_route_from_scope matches st fuel self scope mounted = (Returned t s, scope') ->
  (exists e, t = TEntry e /\ s = Some scope')
  \/ (exists a, t = TNotFound a /\ s = None).
Proof.
  intros H.
  pose proof (get_route_from_scope_well_shaped fuel self scope mounted) as Hw.
  unfold well_shaped in Hw. rewrite H in Hw. simpl in Hw.
  destruct t as [e|a], s as [s|]; try done.
  - left. exists e. by subst.
  - right. by exists a.
Qed.

Lemma route_loop_without_mounts recurse self mounted rs scope partial :
  Forall (fun e => is_mount e = false) rs ->
  exists t s,
    route_loop matches recurse self mounted rs scope partial
    = (Returned t s, default scope s).
Proof.
  intros Hnm. revert partial.
  induction Hnm as [|e rs He _ IH]; intros partial; simpl.
  - destruct partial as [[p ps]|];
      [by exists (TEntry p), (Some (ps ∪ scope))|by exists (TNotFound self), None].
  - rewrite (entry_prelude_not_mount _ _ _ He).
    destruct (matches e scope) as [[] c]; [apply IH|apply IH|].
    destruct e as [x|x|x]; [| |done].
    + by exists (TEntry (ERoute x)), (Some (c ∪ scope)).
    + by exists (TEntry (EWebSocketRoute x)), (Some (c ∪ scope)).
Qed.

(** X3. On a router without mounts the call always returns, at the first
    level: it never raises and never descends; when it finds nothing, the
    scope is as it was. *)
Theorem resolution_without_mounts_returns fuel self mounted r scope :
  routers st !! self = Some r ->
  Forall (fun e => is_mount e = false) (routes r) ->
  exists t s,
    get_route_from_scope matches st (S fuel) self scope mounted
    = (Returned t s, default scope s).
Proof.
  intros Hr Hnm. simpl. rewrite Hr. by apply route_loop_without_mounts.
Qed.

Lemma loop_state_after_top_level_rewritten rs scope partial scope1 partial1 p :
  scope !! "root_path" = None ->
  scope !! "path" = Some (VStr p) ->
  loop_state_after matches false rs scope partial = Some (scope1, partial1) ->
  scope1 !! "root_path" = None /\ scope1 !! "path" = Some (VStr p).
Proof.
  revert scope partial. induction rs as [|e rs IH]; intros scope partial Hr Hp H;
    simpl in H.
  - by inversion H; subst.
  - unfold entry_prelude in H. destruct (is_mount e).
    + rewrite Hr, Hp in H. simpl in H.
      destruct (matches e _) as [[] c]; try done;
        (refine (IH _ _ _ _ H);
         [by rewrite lookup_insert_ne, lookup_delete_eq|
          rewrite lookup_insert_eq; reflexivity]).
    + destruct (matches e scope) as [[] c]; try done; eapply IH; eauto.
Qed.

(** X4. At the top level, once the loop has passed over a [Mount] without a
    FULL match, the scope has lost its root path and its path is the root
    path followed by the path, once: the mounts that follow do not prefix
    it again. *)
Theorem top_level_mount_rewrites_path pre scope partial scope1 partial1 :
  str_paths scope = true ->
  Exists (fun e => is_mount e = true) pre ->
  loop_state_after matches false pre scope partial = Some (scope1, partial1) ->
  scope1 !! "root_path" = None
  /\ scope1 !! "path"
     = Some (VStr (scope_string scope "root_path" +:+ scope_string scope "path")).
Proof.
  intros Hs Hex. revert scope partial Hs.
  induction Hex as [e pre He|e pre _ IH]; intros scope partial Hs H; simpl in H.
  - unfold entry_prelude in H. rewrite He in H.
    unfold str_paths in Hs. apply andb_true_iff in Hs as [Hp Hr].
    unfold scope_string.
    destruct (scope !! "path") as [[p| |]|], (scope !! "root_path") as [[rp| |]|];
      simpl in *; try done;
      (destruct (matches e _) as [[] c]; try done;
       (refine (loop_state_after_top_level_rewritten _ _ _ _ _ _ _ _ H);
        [by rewrite lookup_insert_ne, lookup_delete_eq|by rewrite lookup_insert_eq])).
  - destruct (entry_prelude_str_paths false e scope Hs) as (s1 & rp & Hp & Hs1).
    rewrite Hp in H.
    assert (Hsame : scope_string s1 "root_path" +:+ scope_string s1 "path"
                    = scope_string scope "root_path" +:+ scope_string scope "path").
    { clear -Hp Hs. unfold entry_prelude in Hp. destruct (is_mount e).
      - unfold str_paths in Hs. apply andb_true_iff in Hs as [Hpa Hr].
        unfold scope_string.
        destruct (scope !! "path") as [[p| |]|], (scope !! "root_path") as [[r| |]|];
          simpl in *; try done; injection Hp as <- <-;
          by rewrite lookup_insert_ne, lookup_delete_eq, lookup_insert_eq.
      - by injection Hp as <- <-. }
    rewrite <- Hsame.
    destruct (matches e s1) as [[] c]; try done; eapply IH; eauto.
Qed.

End ResolutionFacts.

Lemma first_partial_is_returned_witness :
  get_route_from_scope Substrate.matches Examples.store_two_routes 1 0
    (Examples.http_scope "DELETE" "/items") false
  = (Returned (TEntry (ERoute Examples.R1))
       (Some (Examples.child_of 10 ∪ Examples.http_scope "DELETE" "/items")),
     Examples.child_of 10 ∪ Examples.http_scope "DELETE" "/items").
Proof.
  apply (first_partial_is_returned Substrate.matches Examples.store_two_routes
           0 0 false Examples.two_routes [] (ERoute Examples.R1) [ERoute Examples.R2]
           (Examples.http_scope "DELETE" "/items") (Examples.http_scope "DELETE" "/items")
           (Examples.http_scope "DELETE" "/items") (VStr "") (Examples.child_of 10)
           (Examples.http_scope "DELETE" "/items")
           (Some (ERoute Examples.R1, Examples.child_of 10)));
    vm_compute; reflexivity.
Defined.

Lemma returned_scope_is_the_scope_of_the_call_witness :
  (exists e, TEntry (ERoute Examples.R2) = TEntry e
             /\ Some (Examples.child_of 11 ∪ Examples.http_scope "GET" "/items")
                = Some (Examples.child_of 11 ∪ Examples.http_scope "GET" "/items"))
  \/ (exists a, TEntry (ERoute Examples.R2) = TNotFound a
                /\ Some (Examples.child_of 11 ∪ Examples.http_scope "GET" "/items") = None).
Proof.
  apply (returned_scope_is_the_scope_of_the_call Substrate.matches
           Examples.store_two_routes 1 0 (Examples.http_scope "GET" "/items") false).
  vm_compute; reflexivity.
Defined.

Lemma resolution_without_mounts_returns_witness :
  exists t s,
    get_route_from_scope Substrate.matches Examples.store_two_routes 1 0
      (Examples.http_scope "GET" "/nowhere") true
    = (Returned t s, default (Examples.http_scope "GET" "/nowhere") s).
Proof.
  apply (resolution_without_mounts_returns Substrate.matches Examples.store_two_routes
           0 0 true Examples.two_routes).
  - vm_compute; reflexivity.
  - repeat constructor.
Defined.

Lemma top_level_mount_rewrites_path_witness :
  (<["path" := VStr "/api/a/b"]> (delete "root_path" Examples.prefixed_scope) : Scope)
    !! "root_path" = None
  /\ (<["path" := VStr "/api/a/b"]> (delete "root_path" Examples.prefixed_scope) : Scope)
       !! "path"
     = Some (VStr (scope_string Examples.prefixed_scope "root_path"
                   +:+ scope_string Examples.prefixed_scope "path")).
Proof.
  apply (top_level_mount_rewrites_path Substrate.matches
           [Examples.mount_at "/x" 2; ERoute Examples.R1] Examples.prefixed_scope None
           (<["path" := VStr "/api/a/b"]> (delete "root_path" Examples.prefixed_scope))
           None).
  - vm_compute; reflexivity.
  - apply Exists_cons_hd. reflexivity.
  - vm_compute; reflexivity.
Defined.

(** ** The introspector: resolved parameters *)

Lemma odict_set_fresh {A} (k : string) (v : A) (d : list (string * A)) :
  k ∉ d.*1 -> odict_set k v d = (d ++ [(k, v)])%list.
Proof.
  induction d as [|[k0 v0] d IH]; simpl; intros Hk; [done|].
  apply not_elem_of_cons in Hk as [Hne Hk].
  rewrite bool_decide_eq_false_2 by done. by rewrite IH.
Qed.

Lemma collect_parameters_no_components recurse (sig : list Param)
    (acc : list (string * Param)) :
  NoDup (acc.*1 ++ (p_name <$> sig))%list ->
  collect_parameters recurse [] sig acc
  = Some (acc ++ ((fun p => (p_name p, p)) <$> sig))%list.
Proof.
  revert acc. induction sig as [|p sig IH]; intros acc Hnd; simpl.
  - by rewrite app_nil_r.
  - rewrite odict_set_fresh.
    + rewrite IH; [by rewrite <- app_assoc|].
      rewrite fmap_app. simpl. by rewrite <- app_assoc.
    + apply NoDup_app in Hnd as (_ & Hdis & _).
      intros Hin. apply (Hdis _ Hin). simpl. apply list_elem_of_here.
Qed.

(** X5. With an empty component list the resolved parameters of a handler
    are its own parameters, in the order of the signature, and one level of
    calls is enough. *)
Theorem parameters_without_components fuel (sig : list Param) :
  NoDup (p_name <$> sig) ->
  _get_parameters_from_handler (S fuel) [] sig
  = Some ((fun p => (p_name p, p)) <$> sig).
Proof.
  intros Hnd. simpl.
  by rewrite collect_parameters_no_components.
Qed.

Lemma collect_parameters_diverges recurse cs sig acc p c :
  p ∈ sig ->
  List.find (fun component => can_handle_parameter component p) cs = Some c ->
  recurse (resolve c) = None ->
  collect_parameters recurse cs sig acc = None.
Proof.
  intros Hp Hfind Hrec. revert acc.
  induction sig as [|q sig IH]; intros acc; [by apply elem_of_nil in Hp|].
  simpl. apply elem_of_cons in Hp as [<-|Hp].
  - by rewrite Hfind, Hrec.
  - destruct (List.find (fun component => can_handle_parameter component q) cs) as [c'|];
      [|by apply IH].
    destruct (recurse (resolve c')); [by apply IH|done].
Qed.

(** X6. When a component is the first to claim a parameter of the handler
    and also the first to claim a parameter of its own [resolve], the
    recursion through the components never ends, whatever the depth
    allowed. *)
Theorem self_claiming_component_diverges cs sig p c q :
  p ∈ sig ->
  List.find (fun component => can_handle_parameter component p) cs = Some c ->
  q ∈ resolve c ->
  List.find (fun component => can_handle_parameter component q) cs = Some c ->
  forall fuel, _get_parameters_from_handler fuel cs sig = None.
Proof.
  intros Hp Hfp Hq Hfq.
  assert (Hres : forall fuel, _get_parameters_from_handler fuel cs (resolve c) = None).
  { induction fuel as [|fuel IH]; [done|]. simpl.
    by eapply collect_parameters_diverges. }
  intros [|fuel]; [done|]. simpl.
  by eapply collect_parameters_diverges.
Qed.

(** ** The introspector: what the fields are *)

Section FieldFacts.

Variable convertors : list string.
Variable request_schemas : gmap string annotation.

Lemma classify_sound acc item :
  fields_sound convertors acc ->
  fields_sound convertors (classify convertors request_schemas acc item).
Proof.
  intros (Hp & Hq & Hb). unfold classify.
  case_bool_decide as Hself; [done|].
  case_bool_decide as Hcv.
  - split; [|done]. simpl. intros n f Hf.
    apply lookup_insert_Some in Hf as [[<- <-]|[_ Hf]]; [done|by apply Hp].
  - destruct (QUERY_SCHEMA_MAPPING _) as [ctor|].
    + destruct (_ || _); (split; [done|]); (split; [|done]); simpl; intros n f Hf;
        (apply lookup_insert_Some in Hf as [[<- <-]|[_ Hf]]; [done|by apply Hq]).
    + destruct (p_annotation _); try done;
        (split; [done|]); (split; [done|]); simpl; by intros f [= <-].
Qed.

Lemma foldl_classify_sound ps acc :
  fields_sound convertors acc ->
  fields_sound convertors (foldl (classify convertors request_schemas) acc ps).
Proof.
  revert acc. induction ps as [|item ps IH]; intros acc H; simpl; [done|].
  by apply IH, classify_sound.
Qed.

Lemma foldl_classify_path_other ps acc n :
  n ∉ ps.*1 ->
  hf_path (foldl (classify convertors request_schemas) acc ps) !! n = hf_path acc !! n.
Proof.
  revert acc. induction ps as [|item ps IH]; intros acc Hn; simpl in *; [done|].
  apply not_elem_of_cons in Hn as [Hne Hn].
  rewrite IH by done. by apply classify_path_other.
Qed.

Lemma foldl_classify_path_exact ps acc n p :
  NoDup ps.*1 -> (n, p) ∈ ps ->
  n <> "self" -> n <> "cls" -> n ∈ convertors ->
  hf_path (foldl (classify convertors request_schemas) acc ps) !! n
  = Some {| name := n; location := path;
            field_schema :=
              match PATH_SCHEMA_MAPPING (p_annotation (overridden request_schemas n p)) with
              | Some (Some t) => Some (FieldSchema t (kw_required true))
              | Some None => None
              | None => Some (FieldSchema String_ (kw_required true))
              end;
            required := Some true |}.
Proof.
  intros Hnd Hin Hs Hc Hcv. revert acc Hnd Hin.
  induction ps as [|item ps IH]; intros acc Hnd Hin; simpl in *.
  - by apply elem_of_nil in Hin.
  - apply NoDup_cons in Hnd as [Hfresh Hnd].
    apply elem_of_cons in Hin as [<-|Hin]; [|by apply IH].
    rewrite foldl_classify_path_other by done.
    unfold classify. simpl.
    rewrite bool_decide_eq_false_2 by set_solver.
    rewrite bool_decide_eq_true_2 by done. simpl.
    rewrite lookup_insert_eq.
    by destruct (PATH_SCHEMA_MAPPING _) as [[t|]|].
Qed.

Lemma foldl_classify_query_required ps acc n p ctor :
  NoDup ps.*1 -> (n, p) ∈ ps ->
  n <> "self" -> n <> "cls" -> n ∉ convertors ->
  QUERY_SCHEMA_MAPPING (p_annotation (overridden request_schemas n p)) = Some ctor ->
  is_optional_type (p_annotation (overridden request_schemas n p)) = false ->
  p_default p = None ->
  hf_query (foldl (classify convertors request_schemas) acc ps) !! n
  = Some {| name := n; location := query;
            field_schema := call_schema ctor (kw_required true);
            required := Some true |}.
Proof.
  intros Hnd Hin Hs Hc Hcv Hq Hopt Hd. revert acc Hnd Hin.
  induction ps as [|item ps IH]; intros acc Hnd Hin; simpl in *.
  - by apply elem_of_nil in Hin.
  - apply NoDup_cons in Hnd as [Hfresh Hnd].
    apply elem_of_cons in Hin as [<-|Hin]; [|by apply IH].
    rewrite foldl_classify_query_other by done.
    unfold classify. simpl.
    rewrite bool_decide_eq_false_2 by set_solver.
    rewrite bool_decide_eq_false_2 by done.
    rewrite Hq, Hopt.
    assert (Hd' : p_default (overridden request_schemas n p) = None).
    { unfold overridden. by destruct (request_schemas !! n). }
    rewrite Hd'. rewrite bool_decide_eq_false_2 by (by intros [? ?]).
    simpl. by rewrite lookup_insert_eq.
Qed.

Lemma foldl_classify_query_absent ps acc n p :
  NoDup ps.*1 -> (n, p) ∈ ps ->
  QUERY_SCHEMA_MAPPING (p_annotation (overridden request_schemas n p)) = None ->
  hf_query acc !! n = None ->
  hf_query (foldl (classify convertors request_schemas) acc ps) !! n = None.
Proof.
  intros Hnd Hin Hq. revert acc Hnd Hin.
  induction ps as [|item ps IH]; intros acc Hnd Hin Hacc; simpl in *.
  - by apply elem_of_nil in Hin.
  - apply NoDup_cons in Hnd as [Hfresh Hnd].
    apply elem_of_cons in Hin as [<-|Hin].
    + rewrite foldl_classify_query_other by done.
      unfold classify. simpl.
      destruct (bool_decide (n ∈ ["self"; "cls"])); [done|].
      destruct (bool_decide (n ∈ convertors)); [done|].
      rewrite Hq. by destruct (p_annotation _).
    + apply IH; [done..|].
      rewrite classify_query_other; [done|].
      intros Heq. apply Hfresh. rewrite Heq.
      apply (list_elem_of_fmap_2 fst _ (n, p)). exact Hin.
Qed.

Lemma classify_body_unassigned acc item :
  assigns_body convertors request_schemas item = false ->
  hf_body (classify convertors request_schemas acc item) = hf_body acc.
Proof.
  unfold assigns_body, classify. intros H.
  destruct (bool_decide (item.1 ∈ ["self"; "cls"])); [done|].
  destruct (bool_decide (item.1 ∈ convertors)); [done|].
  destruct (QUERY_SCHEMA_MAPPING _) as [ctor|];
    [by destruct (is_optional_type _ || _)|].
  simpl in H. by destruct (p_annotation _).
Qed.

Lemma classify_body_assigned acc item :
  assigns_body convertors request_schemas item = true ->
  hf_body (classify convertors request_schemas acc item)
  = Some {| name := item.1; location := body;
            field_schema :=
              body_schema (p_annotation (overridden request_schemas item.1 item.2));
            required := None |}.
Proof.
  unfold assigns_body, classify. intros H.
  destruct (bool_decide (item.1 ∈ ["self"; "cls"])); [done|].
  destruct (bool_decide (item.1 ∈ convertors)); [done|].
  destruct (QUERY_SCHEMA_MAPPING _) as [ctor|].
  - by simpl in H.
  - by destruct (p_annotation _).
Qed.

Lemma foldl_classify_body_unassigned ps acc :
  Forall (fun item => assigns_body convertors request_schemas item = false) ps ->
  hf_body (foldl (classify convertors request_schemas) acc ps) = hf_body acc.
Proof.
  intros H. revert acc. induction H as [|item ps Hi _ IH]; intros acc; simpl; [done|].
  rewrite IH. by apply classify_body_unassigned.
Qed.

End FieldFacts.

(** X7. Whatever the handler, the fields the introspector returns are
    sound: a path field is filed under the name of a path parameter, with
    location path and required true; a query field is never filed under the
    name of a path parameter; no field is ever filed under [self] or [cls];
    and the body field, built without [required], has a schema. *)
Theorem fields_are_sound fuel cs convertors handler hf out :
  _get_fields_from_handler fuel cs convertors handler = Some (hf, out) ->
  (forall n f, hf_path hf !! n = Some f ->
     n ∈ convertors /\ n ∉ ["self"; "cls"]
     /\ name f = n /\ location f = path /\ required f = Some true)
  /\ (forall n f, hf_query hf !! n = Some f ->
        n ∉ convertors /\ n ∉ ["self"; "cls"]
        /\ name f = n /\ location f = query /\ is_Some (required f))
  /\ (forall f, hf_body hf = Some f ->
        name f ∉ convertors /\ name f ∉ ["self"; "cls"]
        /\ location f = body /\ required f = None /\ is_Some (field_schema f)).
Proof.
  unfold _get_fields_from_handler.
  destruct (_get_parameters_from_handler _ _ _) as [ps|]; [|done].
  intros [= <- _]. apply foldl_classify_sound.
  repeat split; by simpl in *.
Qed.

Lemma fields_are_sound_witness :
  "size" ∉ ["item_id"] /\ "size" ∉ ["self"; "cls"]
  /\ name {| name := "size"; location := query;
             field_schema := Some (FieldSchema Integer (kw_missing (PyInt 10)));
             required := Some false |} = "size"
  /\ location {| name := "size"; location := query;
                 field_schema := Some (FieldSchema Integer (kw_missing (PyInt 10)));
                 required := Some false |} = query
  /\ is_Some (required {| name := "size"; location := query;
                          field_schema := Some (FieldSchema Integer (kw_missing (PyInt 10)));
                          required := Some false |}).
Proof.
  destruct (fields_are_sound 1 [] ["item_id"] Examples.search
              Examples.search_fields A_empty) as (_ & Hq & _).
  - vm_compute; reflexivity.
  - apply (Hq "size"). vm_compute; reflexivity.
Defined.

(** X8. The path field of a resolved parameter: its schema is the field
    type that [PATH_SCHEMA_MAPPING] gives for the annotation (after the
    override of its name), built with required true; it is [None] for a
    parameter without annotation, and a string field for an annotation the
    mapping does not know. *)
Theorem path_field_schema fuel cs convertors handler ps n p :
  _get_parameters_from_handler fuel cs (fn_signature handler) = Some ps ->
  (n, p) ∈ ps ->
  n <> "self" -> n <> "cls" ->
  n ∈ convertors ->
  exists hf out,
    _get_fields_from_handler fuel cs convertors handler = Some (hf, out)
    /\ hf_path hf !! n
       = Some {| name := n; location := path;
                 field_schema :=
                   match PATH_SCHEMA_MAPPING
                           (p_annotation
                              (overridden (default ∅ (fn_request_schemas handler)) n p)) with
                   | Some (Some t) => Some (FieldSchema t (kw_required true))
                   | Some None => None
                   | None => Some (FieldSchema String_ (kw_required true))
                   end;
                 required := Some true |}.
Proof.
  intros Hps Hin Hs Hc Hcv. unfold _get_fields_from_handler. rewrite Hps.
  eexists _, _. split; [done|].
  by apply foldl_classify_path_exact;
    [apply (_get_parameters_from_handler_NoDup _ _ _ _ Hps)|..].
Qed.

Lemma path_field_schema_witness :
  exists hf out,
    _get_fields_from_handler 1 [] ["item_id"] Examples.update = Some (hf, out)
    /\ hf_path hf !! "item_id"
       = Some {| name := "item_id"; location := path;
                 field_schema := Some (FieldSchema String_ (kw_required true));
                 required := Some true |}.
Proof.
  apply (path_field_schema 1 [] ["item_id"] Examples.update
           ((fun q => (p_name q, q)) <$> fn_signature Examples.update)
           "item_id" (Examples.param "item_id" (A_other 7) None)).
  - vm_compute; reflexivity.
  - simpl. apply list_elem_of_here.
  - discriminate.
  - discriminate.
  - apply list_elem_of_here.
Defined.

(** X9. A resolved parameter that is not a path parameter, whose
    annotation is a query type but not an optional one, and that has no
    default, gets a query field with required true, whose schema is built
    with required true. *)
Theorem required_query_field fuel cs convertors handler ps n p ctor :
  _get_parameters_from_handler fuel cs (fn_signature handler) = Some ps ->
  (n, p) ∈ ps ->
  n <> "self" -> n <> "cls" ->
  n ∉ convertors ->
  QUERY_SCHEMA_MAPPING
    (p_annotation (overridden (default ∅ (fn_request_schemas handler)) n p)) = Some ctor ->
  is_optional_type
    (p_annotation (overridden (default ∅ (fn_request_schemas handler)) n p)) = false ->
  p_default p = None ->
  exists hf out,
    _get_fields_from_handler fuel cs convertors handler = Some (hf, out)
    /\ hf_query hf !! n
       = Some {| name := n; location := query;
                 field_schema :=
                   match ctor with
                   | Some t => Some (FieldSchema t (kw_required true))
                   | None => None
                   end;
                 required := Some true |}.
Proof.
  intros Hps Hin Hs Hc Hcv Hq Hopt Hd. unfold _get_fields_from_handler. rewrite Hps.
  eexists _, _. split; [done|].
  by apply (foldl_classify_query_required _ _ ps _ n p ctor);
    [apply (_get_parameters_from_handler_NoDup _ _ _ _ Hps)|..].
Qed.

Lemma required_query_field_witness :
  exists hf out,
    _get_fields_from_handler 1 [] ["item_id"] Examples.update = Some (hf, out)
    /\ hf_query hf !! "page"
       = Some {| name := "page"; location := query;
                 field_schema := Some (FieldSchema Integer (kw_required true));
                 required := Some true |}.
Proof.
  apply (required_query_field 1 [] ["item_id"] Examples.update
           ((fun q => (p_name q, q)) <$> fn_signature Examples.update)
           "page" (Examples.param "page" A_int None) (Some Integer)).
  - vm_compute; reflexivity.
  - simpl. do 3 apply list_elem_of_further. apply list_elem_of_here.
  - discriminate.
  - discriminate.
  - intros H. apply list_elem_of_singleton in H. discriminate.
  - reflexivity.
  - reflexivity.
  - reflexivity.
Defined.

(** X10. Of the resolved parameters that are annotated with a schema or a
    dataclass, the last one in the order of resolution is the body field;
    the earlier ones are dropped without notice. *)
Theorem last_body_parameter_wins fuel cs convertors handler pre item post :
  _get_parameters_from_handler fuel cs (fn_signature handler)
  = Some (pre ++ item :: post)%list ->
  assigns_body convertors (default ∅ (fn_request_schemas handler)) item = true ->
  Forall (fun later =>
            assigns_body convertors (default ∅ (fn_request_schemas handler)) later = false)
    post ->
  exists hf out,
    _get_fields_from_handler fuel cs convertors handler = Some (hf, out)
    /\ hf_body hf
       = Some {| name := item.1; location := body;
                 field_schema :=
                   body_schema
                     (p_annotation
                        (overridden (default ∅ (fn_request_schemas handler)) item.1 item.2));
                 required := None |}.
Proof.
  intros Hps Hitem Hpost. unfold _get_fields_from_handler. rewrite Hps.
  eexists _, _. split; [done|].
  rewrite foldl_app. simpl.
  rewrite foldl_classify_body_unassigned by done.
  by apply classify_body_assigned.
Qed.

Lemma last_body_parameter_wins_witness :
  exists hf out,
    _get_fields_from_handler 1 [] ["item_id"] Examples.update = Some (hf, out)
    /\ hf_body hf
       = Some {| name := "second"; location := body;
                 field_schema := Some (SchemaInstance 2);
                 required := None |}.
Proof.
  apply (last_body_parameter_wins 1 [] ["item_id"] Examples.update
           [("item_id", Examples.param "item_id" (A_other 7) None);
            ("first", Examples.param "first" (A_schema 1) None)]
           ("second", Examples.param "second" (A_schema 2) None)
           [("page", Examples.param "page" A_int None)]).
  - vm_compute; reflexivity.
  - vm_compute; reflexivity.
  - repeat constructor.
Defined.

(** X11. A schema override that is not a query type takes the parameter
    out of the query fields, whatever its declared annotation. *)
Theorem overridden_parameter_is_no_query_field fuel cs convertors handler ps n p rs a :
  _get_parameters_from_handler fuel cs (fn_signature handler) = Some ps ->
  (n, p) ∈ ps ->
  fn_request_schemas handler = Some rs ->
  rs !! n = Some a ->
  QUERY_SCHEMA_MAPPING a = None ->
  exists hf out,
    _get_fields_from_handler fuel cs convertors handler = Some (hf, out)
    /\ hf_query hf !! n = None.
Proof.
  intros Hps Hin Hrs Hn Ha. unfold _get_fields_from_handler. rewrite Hps, Hrs.
  eexists _, _. split; [done|]. simpl.
  eapply foldl_classify_query_absent;
    [apply (_get_parameters_from_handler_NoDup _ _ _ _ Hps)|exact Hin| |done].
  unfold overridden. by rewrite Hn.
Qed.

Lemma overridden_parameter_is_no_query_field_witness :
  exists hf out,
    _get_fields_from_handler 1 [] [] Examples.filter_ = Some (hf, out)
    /\ hf_query hf !! "q" = None.
Proof.
  apply (overridden_parameter_is_no_query_field 1 [] [] Examples.filter_
           [("q", Examples.param "q" A_int None)] "q" (Examples.param "q" A_int None)
           {[ "q" := A_schema 5 ]} (A_schema 5)).
  - vm_compute; reflexivity.
  - apply list_elem_of_here.
  - reflexivity.
  - vm_compute; reflexivity.
  - reflexivity.
Defined.

Lemma parameters_without_components_witness :
  _get_parameters_from_handler 1 [] (fn_signature Examples.update)
  = Some ((fun p => (p_name p, p)) <$> fn_signature Examples.update).
Proof.
  apply (parameters_without_components 0 (fn_signature Examples.update)).
  refine (bool_decide_unpack _ _). vm_compute. exact I.
Defined.

Lemma self_claiming_component_diverges_witness :
  _get_parameters_from_handler 5 [Examples.GreedyComponent]
    (fn_signature Examples.show_puppy) = None.
Proof.
  apply (self_claiming_component_diverges [Examples.GreedyComponent]
           (fn_signature Examples.show_puppy)
           (Examples.param "puppy" (A_other 1) None) Examples.GreedyComponent
           (Examples.param "other" (A_other 1) None)).
  - apply list_elem_of_here.
  - reflexivity.
  - apply list_elem_of_here.
  - reflexivity.
Defined.

(** ** The field maps of a route *)

Section RouteFieldFacts.

Variable fuel : nat.
Variable cs : list Component.
Variable convertors : list string.

Lemma fields_loop_filed hs acc rf m h :
  fields_loop fuel cs convertors hs acc = Ok rf ->
  (forall h', (m, h') ∈ hs -> h' = h) ->
  m ∈ hs.*1 \/ filed_under fuel cs convertors acc m h ->
  filed_under fuel cs convertors rf m h.
Proof.
  revert acc. induction hs as [|[m0 h0] hs IH]; intros acc H Hfun Hm; simpl in H.
  - destruct Hm as [Hm|Hm]; [by apply elem_of_nil in Hm|]. by injection H as <-.
  - destruct (_get_fields_from_handler fuel cs convertors h0) as [[hf0 out0]|] eqn:Hh0;
      [|done].
    eapply IH; [exact H| |].
    + intros h' Hin. apply Hfun. by apply list_elem_of_further.
    + destruct (decide (m0 = m)) as [->|Hne].
      * right. rewrite (Hfun h0 (list_elem_of_here _ _)) in Hh0.
        exists hf0, out0. simpl. by rewrite !lookup_insert_eq.
      * destruct Hm as [Hm|(hf & out & Hh & Hq & Hp & Hb & Ho)].
        -- left. simpl in Hm. apply elem_of_cons in Hm as [Hm|Hm]; [congruence|done].
        -- right. exists hf, out. simpl. by rewrite !lookup_insert_ne.
Qed.

Lemma fields_loop_not_filed hs acc rf m :
  fields_loop fuel cs convertors hs acc = Ok rf ->
  m ∉ hs.*1 ->
  rf_query rf !! m = rf_query acc !! m
  /\ rf_path rf !! m = rf_path acc !! m
  /\ rf_body rf !! m = rf_body acc !! m
  /\ rf_output rf !! m = rf_output acc !! m.
Proof.
  revert acc. induction hs as [|[m0 h0] hs IH]; intros acc H Hm; simpl in H.
  - by injection H as <-.
  - destruct (_get_fields_from_handler fuel cs convertors h0) as [[hf0 out0]|]; [|done].
    simpl in Hm. apply not_elem_of_cons in Hm as [Hne Hm].
    destruct (IH _ H Hm) as (Hq & Hp & Hb & Ho). simpl in *.
    by rewrite Hq, Hp, Hb, Ho, !lookup_insert_ne.
Qed.

End RouteFieldFacts.

Lemma class_handlers_cons members m0 ms :
  class_handlers members (m0 :: ms)
  = match members !! (if bool_decide (m0 = "HEAD") then "get" else lower m0) with
    | None => Raise AttributeError
    | Some h =>
        match class_handlers members ms with
        | Ok hs => Ok ((m0, h) :: hs)
        | other => other
        end
    end.
Proof. reflexivity. Qed.

Lemma class_handlers_elem members ms hs m h :
  class_handlers members ms = Ok hs ->
  (m, h) ∈ hs ->
  m ∈ ms /\ members !! (if bool_decide (m = "HEAD") then "get" else lower m) = Some h.
Proof.
  revert hs. induction ms as [|m0 ms IH]; intros hs H Hin.
  - injection H as <-. by apply elem_of_nil in Hin.
  - rewrite class_handlers_cons in H.
    destruct (members !! (if bool_decide (m0 = "HEAD") then "get" else lower m0))
      as [h0|] eqn:Hh0; [|discriminate].
    destruct (class_handlers members ms) as [hs0| |]; [|discriminate..].
    injection H as <-. apply elem_of_cons in Hin as [Heq|Hin].
    + injection Heq as -> ->. split; [apply list_elem_of_here|done].
    + destruct (IH _ eq_refl Hin). split; [by apply list_elem_of_further|done].
Qed.

Lemma class_handlers_keys members ms hs :
  class_handlers members ms = Ok hs -> hs.*1 = ms.
Proof.
  revert hs. induction ms as [|m0 ms IH]; intros hs H.
  - by injection H as <-.
  - rewrite class_handlers_cons in H.
    destruct (members !! (if bool_decide (m0 = "HEAD") then "get" else lower m0))
      as [h0|]; [|discriminate].
    destruct (class_handlers members ms) as [hs0| |]; [|discriminate..].
    injection H as <-. rewrite fmap_cons. simpl. f_equal. by apply IH.
Qed.

Lemma class_handlers_missing members ms m :
  m ∈ ms ->
  members !! (if bool_decide (m = "HEAD") then "get" else lower m) = None ->
  class_handlers members ms = Raise AttributeError.
Proof.
  intros Hin Hm. induction ms as [|m0 ms IH]; [by apply elem_of_nil in Hin|].
  rewrite class_handlers_cons.
  apply elem_of_cons in Hin as [<-|Hin]; [by rewrite Hm|].
  destruct (members !! (if bool_decide (m0 = "HEAD") then "get" else lower m0));
    [|done].
  by rewrite IH.
Qed.

Section ConstructorFacts.

Variable compile_path : string -> list string.
Variable fuel : nat.

(** X12. A route built for a function: every method of the route is given
    the same fields, those of the function, and the same output, the
    function's response schema or else its return annotation (a dataclass
    replaced by its schema); nothing is filed under any other method. *)
Theorem function_route_fields path_ endpoint_ router methods_ name_ iis sc st route st' f :
  Route_init compile_path fuel path_ endpoint_ router methods_ name_ iis sc st
  = (Ok route, st') ->
  endpoints st !! endpoint_ = Some (EpFunction f) ->
  exists hf,
    (forall m, m ∈ methods route ->
       query_fields route !! m = Some (hf_query hf)
       /\ path_fields route !! m = Some (hf_path hf)
       /\ body_field route !! m = Some (hf_body hf)
       /\ output_field route !! m = Some (output_of f))
    /\ (forall m, m ∉ methods route ->
          query_fields route !! m = None /\ path_fields route !! m = None
          /\ body_field route !! m = None /\ output_field route !! m = None).
Proof.
  intros Hri Hep.
  destruct (Route_init_ok _ _ _ _ _ _ _ _ _ _ _ _ Hri)
    as (ep & r & cs & fields & Hep' & Hr & Hcs & Hf & Hq & Hp & Hb & Ho & _).
  rewrite Hep in Hep'. injection Hep' as <-.
  unfold _get_fields in Hf. simpl in Hf.
  rewrite Hq, Hp, Hb, Ho.
  assert (Hkeys : (List.map (fun m => (m, f)) (methods route)).*1 = methods route).
  { clear. induction (methods route) as [|m ms IH]; [done|].
    change (m :: (List.map (fun m => (m, f)) ms).*1 = m :: ms). by f_equal. }
  assert (Hfun : forall m h', (m, h') ∈ List.map (fun m => (m, f)) (methods route) -> h' = f).
  { clear. intros m h' Hin. apply list_elem_of_In, in_map_iff in Hin as (x & [= _ <-] & _).
    done. }
  destruct (_get_fields_from_handler fuel cs (compile_path path_) f) as [[hf out]|] eqn:Hh.
  - exists hf. split.
    + intros m Hm.
      destruct (fields_loop_filed _ _ _ _ _ _ m f Hf (Hfun m))
        as (hf' & out' & Hh' & Hq' & Hp' & Hb' & Ho'); [left; by rewrite Hkeys|].
      rewrite Hh in Hh'. injection Hh' as <- <-.
      repeat split; try done.
      rewrite Ho'. f_equal. unfold _get_fields_from_handler in Hh.
      destruct (_get_parameters_from_handler _ _ _); [|done]. by injection Hh as _ <-.
    + intros m Hm. rewrite <- Hkeys in Hm.
      destruct (fields_loop_not_filed _ _ _ _ _ _ m Hf Hm) as (-> & -> & -> & ->).
      unfold no_fields. simpl. by rewrite !lookup_empty.
  - exists {| hf_query := ∅; hf_path := ∅; hf_body := None |}. split.
    + intros m Hm.
      destruct (fields_loop_filed _ _ _ _ _ _ m f Hf (Hfun m))
        as (hf' & out' & Hh' & _); [left; by rewrite Hkeys|].
      by rewrite Hh in Hh'.
    + intros m Hm. rewrite <- Hkeys in Hm.
      destruct (fields_loop_not_filed _ _ _ _ _ _ m Hf Hm) as (-> & -> & -> & ->).
      unfold no_fields. simpl. by rewrite !lookup_empty.
Qed.

(** X13. A route built for a class that serves both GET and HEAD: what is
    filed under HEAD is what is filed under GET, the fields of the method
    [get]. *)
Theorem head_shares_the_fields_of_get path_ endpoint_ router methods_ name_ iis sc
    st route st' cls members :
  Route_init compile_path fuel path_ endpoint_ router methods_ name_ iis sc st
  = (Ok route, st') ->
  endpoints st !! endpoint_ = Some (EpClass cls members) ->
  "GET" ∈ methods route ->
  "HEAD" ∈ methods route ->
  query_fields route !! "HEAD" = query_fields route !! "GET"
  /\ path_fields route !! "HEAD" = path_fields route !! "GET"
  /\ body_field route !! "HEAD" = body_field route !! "GET"
  /\ output_field route !! "HEAD" = output_field route !! "GET".
Proof.
  intros Hri Hep Hget Hhead.
  destruct (Route_init_ok _ _ _ _ _ _ _ _ _ _ _ _ Hri)
    as (ep & r & cs & fields & Hep' & Hr & Hcs & Hf & Hq & Hp & Hb & Ho & _).
  rewrite Hep in Hep'. injection Hep' as <-.
  unfold _get_fields in Hf. simpl in Hf.
  destruct (class_handlers members (methods route)) as [hs| |] eqn:Hhs; [|done..].
  pose proof (class_handlers_keys _ _ _ Hhs) as Hkeys.
  assert (Hsome : exists h, members !! "get" = Some h).
  { rewrite <- Hkeys in Hget. apply list_elem_of_fmap in Hget as ([m h] & Heq & Hin).
    simpl in Heq. subst m.
    destruct (class_handlers_elem _ _ _ _ _ Hhs Hin) as [_ Hh]. exists h. exact Hh. }
  destruct Hsome as [h Hh].
  assert (Hfun : forall m h', m = "GET" \/ m = "HEAD" -> (m, h') ∈ hs -> h' = h).
  { intros m h' Hm Hin. destruct (class_handlers_elem _ _ _ _ _ Hhs Hin) as [_ Hh'].
    destruct Hm as [-> | ->];
      [change (members !! "get" = Some h') in Hh'|change (members !! "get" = Some h') in Hh'];
      congruence. }
  destruct (fields_loop_filed _ _ _ _ _ _ "GET" h Hf)
    as (hf1 & out1 & Hh1 & Hq1 & Hp1 & Hb1 & Ho1);
    [intros h'; apply Hfun; by left|left; by rewrite Hkeys|].
  destruct (fields_loop_filed _ _ _ _ _ _ "HEAD" h Hf)
    as (hf2 & out2 & Hh2 & Hq2 & Hp2 & Hb2 & Ho2);
    [intros h'; apply Hfun; by right|left; by rewrite Hkeys|].
  rewrite Hh1 in Hh2. injection Hh2 as <- <-.
  rewrite Hq, Hp, Hb, Ho. by rewrite Hq1, Hq2, Hp1, Hp2, Hb1, Hb2, Ho1, Ho2.
Qed.

(** X14. A route built for a class without a list of methods: the route
    object has no attribute named after a verb, so its method list is empty
    and so are its four field maps. *)
Theorem class_route_without_methods path_ endpoint_ router name_ iis sc st cls members r cs :
  String.prefix "/" path_ = true ->
  endpoints st !! endpoint_ = Some (EpClass cls members) ->
  routers st !! router = Some r ->
  component_lists st !! components r = Some cs ->
  Route_init compile_path fuel path_ endpoint_ router None name_ iis sc st
  = (Ok {| route_path := path_; endpoint := endpoint_;
           route_name := default (fn_name cls) name_;
           include_in_schema := iis; methods := [];
           param_convertors := compile_path path_;
           query_fields := ∅; path_fields := ∅; body_field := ∅; output_field := ∅;
           status_code := sc |}, st).
Proof.
  intros Hpath Hep Hr Hcs. unfold Route_init. rewrite Hpath. simpl. unfold_M.
  by rewrite Hep, Hr, Hcs.
Qed.

(** X15. A websocket route: the fields of its endpoint are filed under the
    one key GET, and under no other. *)
Theorem websocket_route_fields path_ endpoint_ router name_ st w st' :
  WebSocketRoute_init compile_path fuel path_ endpoint_ router name_ st = (Ok w, st') ->
  exists ep r cs hf out,
    endpoints st !! endpoint_ = Some ep
    /\ routers st !! router = Some r
    /\ component_lists st !! components r = Some cs
    /\ _get_fields_from_handler fuel cs (compile_path path_) (endpoint_object ep)
       = Some (hf, out)
    /\ ws_query_fields w = {[ "GET" := hf_query hf ]}
    /\ ws_path_fields w = {[ "GET" := hf_path hf ]}
    /\ ws_body_field w = {[ "GET" := hf_body hf ]}
    /\ ws_output_field w = {[ "GET" := out ]}.
Proof.
  unfold WebSocketRoute_init. destruct (negb _); unfold_M; [done|].
  destruct (endpoints st !! endpoint_) as [ep|] eqn:Hep; [|done].
  destruct (routers st !! router) as [r|] eqn:Hr; [|done].
  destruct (component_lists st !! components r) as [cs|] eqn:Hcs; [|done].
  unfold _get_fields. simpl.
  destruct (_get_fields_from_handler _ _ _ _) as [[hf out]|] eqn:Hh; [|done].
  intros [= <- <-]. exists ep, r, cs, hf, out. simpl.
  by rewrite !insert_empty.
Qed.

End ConstructorFacts.

Lemma function_route_fields_witness :
  exists hf,
    query_fields Examples.search_route !! "HEAD" = Some (hf_query hf)
    /\ path_fields Examples.search_route !! "HEAD" = Some (hf_path hf)
    /\ body_field Examples.search_route !! "HEAD" = Some (hf_body hf)
    /\ output_field Examples.search_route !! "HEAD" = Some (output_of Examples.search).
Proof.
  destruct (function_route_fields Examples.no_parameters 1 "/search" 41 0 (Some ["get"])
              None true 200 Examples.store_views Examples.search_route
              Examples.store_views Examples.search) as (hf & Hin & _).
  - vm_compute; reflexivity.
  - vm_compute; reflexivity.
  - exists hf. apply Hin.
    refine (bool_decide_unpack _ _). vm_compute. exact I.
Defined.

Lemma head_shares_the_fields_of_get_witness :
  query_fields Examples.view_route !! "HEAD" = query_fields Examples.view_route !! "GET"
  /\ path_fields Examples.view_route !! "HEAD" = path_fields Examples.view_route !! "GET"
  /\ body_field Examples.view_route !! "HEAD" = body_field Examples.view_route !! "GET"
  /\ output_field Examples.view_route !! "HEAD" = output_field Examples.view_route !! "GET".
Proof.
  apply (head_shares_the_fields_of_get Examples.no_parameters 1 "/puppy" 40 0
           (Some ["get"; "post"]) None true 200 Examples.store_views Examples.view_route
           Examples.store_views (Examples.handler_of [Examples.param "scope" A_empty None])
           {[ "get" := Examples.handler_of [Examples.param "self" A_empty None;
                                            Examples.param "page" A_OptInt None];
              "post" := Examples.handler_of [Examples.param "self" A_empty None;
                                             Examples.param "puppy" (A_schema 1) None] ]}).
  - vm_compute; reflexivity.
  - vm_compute; reflexivity.
  - refine (bool_decide_unpack _ _). vm_compute. exact I.
  - refine (bool_decide_unpack _ _). vm_compute. exact I.
Defined.

Lemma class_route_without_methods_witness :
  Route_init Examples.no_parameters 1 "/puppy" 40 0 None None true 200 Examples.store_views
  = (Ok {| route_path := "/puppy"; endpoint := 40; route_name := "handler";
           include_in_schema := true; methods := [];
           param_convertors := [];
           query_fields := ∅; path_fields := ∅; body_field := ∅; output_field := ∅;
           status_code := 200 |}, Examples.store_views).
Proof.
  apply (class_route_without_methods Examples.no_parameters 1 "/puppy" 40 0 None true 200
           Examples.store_views (Examples.handler_of [Examples.param "scope" A_empty None])
           {[ "get" := Examples.handler_of [Examples.param "self" A_empty None;
                                            Examples.param "page" A_OptInt None];
              "post" := Examples.handler_of [Examples.param "self" A_empty None;
                                             Examples.param "puppy" (A_schema 1) None] ]}
           {| routes := []; components := 0 |} []).
  - reflexivity.
  - vm_compute; reflexivity.
  - vm_compute; reflexivity.
  - vm_compute; reflexivity.
Defined.

Lemma websocket_route_fields_witness :
  exists ep r cs hf out,
    endpoints Examples.store_views !! 41 = Some ep
    /\ routers Examples.store_views !! 0 = Some r
    /\ component_lists Examples.store_views !! components r = Some cs
    /\ _get_fields_from_handler 1 cs (Examples.no_parameters "/ws") (endpoint_object ep)
       = Some (hf, out)
    /\ ws_query_fields Examples.search_socket = {[ "GET" := hf_query hf ]}
    /\ ws_path_fields Examples.search_socket = {[ "GET" := hf_path hf ]}
    /\ ws_body_field Examples.search_socket = {[ "GET" := hf_body hf ]}
    /\ ws_output_field Examples.search_socket = {[ "GET" := out ]}.
Proof.
  apply (websocket_route_fields Examples.no_parameters 1 "/ws" 41 0 None
           Examples.store_views Examples.search_socket Examples.store_views).
  vm_compute; reflexivity.
Defined.

(** ** Registration: failures and decorators *)

Lemma merged_request_schemas_given attached rs :
  exists merged, merged_request_schemas attached (Some rs) = Ok merged.
Proof.
  unfold merged_request_schemas. destruct attached as [att|]; [|by eexists].
  destruct (bool_decide (att = ∅)); by eexists.
Qed.

Lemma attach_schemas_class merged response_schema cls members :
  exists cls', attach_schemas merged response_schema (EpClass cls members)
               = EpClass cls' members.
Proof.
  unfold attach_schemas. simpl. destruct (fn_response_schema cls); by eexists.
Qed.

Lemma attach_schemas_function merged response_schema f :
  exists f', attach_schemas merged response_schema (EpFunction f) = EpFunction f'.
Proof.
  unfold attach_schemas. simpl. destruct (fn_response_schema f); by eexists.
Qed.

Lemma fields_loop_never_raises fuel cs convertors hs acc e :
  fields_loop fuel cs convertors hs acc <> Raise e.
Proof.
  revert acc. induction hs as [|[m h] hs IH]; intros acc; simpl; [done|].
  destruct (_get_fields_from_handler _ _ _ _) as [[hf out]|]; [apply IH|done].
Qed.

Section RegistrationEdgeFacts.

Variable compile_path : string -> list string.
Variable fuel : nat.

Lemma add_route_failure_keeps_routers st self path_ endpoint_ methods_ name_ iis sc
    response_schema request_schemas result st' :
  add_route compile_path fuel self path_ endpoint_ methods_ name_ iis sc
    response_schema request_schemas st = (result, st') ->
  result <> Ok tt ->
  routers st' = routers st /\ component_lists st' = component_lists st.
Proof.
  unfold add_route. unfold_M.
  destruct (endpoints st !! endpoint_) as [ep|]; [|by intros [= <- <-]].
  destruct (merged_request_schemas _ _) as [merged| |]; [|by intros [= <- <-]..].
  destruct (accepts_attributes ep); [|by intros [= <- <-]].
  destruct (Route_init _ _ _ _ _ _ _ _ _ _) as [[route| |] st1] eqn:Hri;
    pose proof (Route_init_store _ _ _ _ _ _ _ _ _ _ _ _ Hri) as ->;
    [|by intros [= <- <-]..].
  unfold append_route. unfold_M. simpl.
  destruct (routers st !! self); simpl; intros [= <- <-]; [by destruct 1|done].
Qed.

(** X16. A call of [add_route] that does not return normally leaves every
    router and every component list as they were: a route is appended only
    once everything else has succeeded. *)
Theorem failed_add_route_appends_nothing st self path_ endpoint_ methods_ name_ iis sc
    response_schema request_schemas result st' :
  add_route compile_path fuel self path_ endpoint_ methods_ name_ iis sc
    response_schema request_schemas st = (result, st') ->
  result <> Ok tt ->
  routers st' = routers st /\ component_lists st' = component_lists st.
Proof.
  apply add_route_failure_keeps_routers.
Qed.

Lemma Route_init_class_missing path_ endpoint_ router ms name_ iis sc st cls members r cs m :
  String.prefix "/" path_ = true ->
  endpoints st !! endpoint_ = Some (EpClass cls members) ->
  routers st !! router = Some r ->
  component_lists st !! components r = Some cs ->
  m ∈ normalise_methods ms ->
  members !! (if bool_decide (m = "HEAD") then "get" else lower m) = None ->
  Route_init compile_path fuel path_ endpoint_ router (Some ms) name_ iis sc st
  = (Raise AttributeError, st).
Proof.
  intros Hpath Hep Hr Hcs Hin Hmissing.
  unfold Route_init. rewrite Hpath. cbn [negb]. unfold_M.
  rewrite Hep, Hr, Hcs. unfold _get_fields, method_handlers.
  cbn [fmap option_fmap option_map].
  by rewrite (class_handlers_missing members (normalise_methods ms) m Hin Hmissing).
Qed.

(** X17. [add_route] on a class that lacks the method of one of the verbs
    (HEAD standing for [get]): the call raises [AttributeError] and appends
    nothing, but the two attributes of the endpoint have been written by
    then. *)
Theorem class_without_method_raises st self path_ endpoint_ cls members ms m merged
    name_ iis sc response_schema request_schemas r cs :
  endpoints st !! endpoint_ = Some (EpClass cls members) ->
  merged_request_schemas (fn_request_schemas cls) request_schemas = Ok merged ->
  String.prefix "/" path_ = true ->
  routers st !! self = Some r ->
  component_lists st !! components r = Some cs ->
  m ∈ normalise_methods ms ->
  members !! (if bool_decide (m = "HEAD") then "get" else lower m) = None ->
  add_route compile_path fuel self path_ endpoint_ (Some ms) name_ iis sc
    response_schema request_schemas st
  = (Raise AttributeError,
     with_endpoint endpoint_
       (attach_schemas merged response_schema (EpClass cls members)) st).
Proof.
  intros Hep Hm Hpath Hr Hcs Hin Hmissing.
  rewrite (add_route_unfold compile_path fuel st self path_ endpoint_
             (EpClass cls members) merged (Some ms) name_ iis sc response_schema
             request_schemas Hep eq_refl Hm).
  destruct (attach_schemas_class merged response_schema cls members) as [cls' ->].
  unfold mbind, M_bind.
  by rewrite (Route_init_class_missing path_ endpoint_ self ms name_ iis sc
                (with_endpoint endpoint_ (EpClass cls' members) st) cls' members r cs m
                Hpath (lookup_insert_eq _ _ _) Hr Hcs Hin Hmissing).
Qed.

Lemma Route_init_function_errors path_ endpoint_ router methods_ name_ iis sc st f :
  endpoints st !! endpoint_ = Some (EpFunction f) ->
  (Route_init compile_path fuel path_ endpoint_ router methods_ name_ iis sc st).1
  <> Raise AttributeError.
Proof.
  intros Hep. unfold Route_init. destruct (negb _); unfold_M; [done|].
  rewrite Hep.
  destruct (routers st !! router) as [r|]; [|done].
  destruct (component_lists st !! components r) as [cs|]; [|done].
  unfold _get_fields. simpl.
  destruct (fields_loop _ _ _ _ _) as [fields|e|] eqn:Hf; [done| |done].
  by apply fields_loop_never_raises in Hf.
Qed.

Lemma add_route_with_schemas_on_function st self path_ endpoint_ methods_ name_ iis sc
    response_schema rs f :
  endpoints st !! endpoint_ = Some (EpFunction f) ->
  (add_route compile_path fuel self path_ endpoint_ methods_ name_ iis sc
     response_schema (Some rs) st).1 <> Raise AttributeError.
Proof.
  intros Hep.
  destruct (merged_request_schemas_given (fn_request_schemas (endpoint_object (EpFunction f)))
              rs) as [merged Hm].
  rewrite (add_route_unfold compile_path fuel st self path_ endpoint_ (EpFunction f) merged
             methods_ name_ iis sc response_schema (Some rs) Hep eq_refl Hm).
  destruct (attach_schemas_function merged response_schema f) as [f' ->].
  pose proof (Route_init_function_errors path_ endpoint_ self methods_ name_ iis sc
                (with_endpoint endpoint_ (EpFunction f') st) f'
                (lookup_insert_eq _ _ _)) as Hne.
  unfold mbind, M_bind.
  destruct (Route_init _ _ _ _ _ _ _ _ _ _) as [[route|e|] st1]; simpl in *.
  - unfold append_route. unfold_M. by destruct (routers st1 !! self).
  - intros [= ->]. by apply Hne.
  - discriminate.
Qed.

(** X18. Registering a function through one of the verb methods never
    raises [AttributeError]: the keyword arguments left over always form a
    dictionary, so the merge with the overrides attached to the function
    cannot fail, and a function has the one handler for every method.  When
    the call returns, it returns the function it was given. *)
Theorem verb_route_on_function verb st self path_ name_ iis sc response_schema
    request_schemas func f :
  endpoints st !! func = Some (EpFunction f) ->
  (verb_route compile_path fuel verb self path_ name_ iis sc response_schema
     request_schemas func st).1 <> Raise AttributeError
  /\ forall x st',
       verb_route compile_path fuel verb self path_ name_ iis sc response_schema
         request_schemas func st = (Ok x, st') ->
       x = func.
Proof.
  intros Hep.
  pose proof (add_route_with_schemas_on_function st self path_ func (Some [verb]) name_
                iis sc response_schema request_schemas f Hep) as Hne.
  unfold verb_route, route, mbind, M_bind.
  destruct (add_route _ _ _ _ _ _ _ _ _ _ _ st) as [[[]|e|] st1]; simpl in *.
  - split; [done|]. unfold_M. by intros x st' [= <- _].
  - split; [|done]. by intros [= ->].
  - done.
Qed.

(** X20. [mount] with a path that, once stripped, is neither empty nor
    starts with a slash: the substrate refuses the [Mount], nothing is
    appended, but the router to be mounted already refers to the component
    list of the router it was to be mounted on. *)
Theorem refused_mount_has_shared_components st self a path_ name_ r ra :
  routers st !! self = Some r ->
  routers st !! a = Some ra ->
  rstrip_slash path_ <> "" ->
  String.prefix "/" (rstrip_slash path_) = false ->
  mount self path_ (AppRouter a) name_ st
  = (Raise AssertionError,
     {| routers := <[a := {| routes := routes ra; components := components r |}]>
                     (routers st);
        component_lists := component_lists st;
        endpoints := endpoints st |}).
Proof.
  intros Hr Ha Hne Hprefix. unfold mount, Mount_init. unfold_M.
  rewrite Hr, Ha. simpl.
  by rewrite bool_decide_eq_false_2, Hprefix.
Qed.

End RegistrationEdgeFacts.

Lemma failed_add_route_appends_nothing_witness :
  routers (add_route Examples.no_parameters 1 0 "items" 20 (Some ["POST"]) None true 201
             None (Some Examples.caller_schemas) Examples.store_create).2
  = routers Examples.store_create
  /\ component_lists
       (add_route Examples.no_parameters 1 0 "items" 20 (Some ["POST"]) None true 201
          None (Some Examples.caller_schemas) Examples.store_create).2
     = component_lists Examples.store_create.
Proof.
  apply (failed_add_route_appends_nothing Examples.no_parameters 1 Examples.store_create
           0 "items" 20 (Some ["POST"]) None true 201 None (Some Examples.caller_schemas)
           (Raise AssertionError)).
  - vm_compute; reflexivity.
  - discriminate.
Defined.

Lemma class_without_method_raises_witness :
  add_route Examples.no_parameters 1 0 "/puppy" 40 (Some ["delete"]) None true 200
    None None Examples.store_views
  = (Raise AttributeError,
     with_endpoint 40 (attach_schemas None None Examples.puppy_view) Examples.store_views).
Proof.
  apply (class_without_method_raises Examples.no_parameters 1 Examples.store_views 0
           "/puppy" 40 (Examples.handler_of [Examples.param "scope" A_empty None])
           {[ "get" := Examples.handler_of [Examples.param "self" A_empty None;
                                            Examples.param "page" A_OptInt None];
              "post" := Examples.handler_of [Examples.param "self" A_empty None;
                                             Examples.param "puppy" (A_schema 1) None] ]}
           ["delete"] "DELETE" None None true 200 None None
           {| routes := []; components := 0 |} []).
  - vm_compute; reflexivity.
  - reflexivity.
  - reflexivity.
  - vm_compute; reflexivity.
  - vm_compute; reflexivity.
  - refine (bool_decide_unpack _ _). vm_compute. exact I.
  - vm_compute; reflexivity.
Defined.

Lemma verb_route_on_function_witness :
  (get Examples.no_parameters 1 0 "/search" None true 200 None ∅ 41
     Examples.store_views).1 <> Raise AttributeError
  /\ forall x st',
       get Examples.no_parameters 1 0 "/search" None true 200 None ∅ 41
         Examples.store_views = (Ok x, st') ->
       x = 41.
Proof.
  apply (verb_route_on_function Examples.no_parameters 1 "GET" Examples.store_views 0
           "/search" None true 200 None ∅ 41 Examples.search).
  vm_compute; reflexivity.
Defined.

Lemma refused_mount_has_shared_components_witness :
  mount 0 "mnt/" (AppRouter 1) None Examples.store_three
  = (Raise AssertionError,
     {| routers := <[1 := {| routes := []; components := 0 |}]>
                     (routers Examples.store_three);
        component_lists := component_lists Examples.store_three;
        endpoints := endpoints Examples.store_three |}).
Proof.
  apply (refused_mount_has_shared_components Examples.store_three 0 1 "mnt/" None
           {| routes := []; components := 0 |} {| routes := []; components := 1 |}).
  - vm_compute; reflexivity.
  - vm_compute; reflexivity.
  - discriminate.
  - reflexivity.
Defined.

(** ** A mount passed on the way hides a later FULL match *)

(** C1. Routes: [/items] for POST, then a mount at [/x], then [/items] for
    GET; the request is GET [/items], received under the root path [/api].
    On the request the first route matches PARTIAL and the last one FULL;
    yet the call returns the first: the mount, which does not match, has
    popped the root path and left the path rewritten to [/api/items], and on
    that scope the last route reports no match. *)
Theorem mount_between_hides_full_match :
  (Substrate.matches (ERoute Examples.R1) Examples.api_items_scope).1 = PARTIAL
  /\ (Substrate.matches (ERoute Examples.R2) Examples.api_items_scope).1 = FULL
  /\ Examples.returned_target
       (get_route_from_scope Substrate.matches Examples.store_mount_between 2 0
          Examples.api_items_scope false)
     = Some (TEntry (ERoute Examples.R1))
  /\ (get_route_from_scope Substrate.matches Examples.store_mount_between 2 0
        Examples.api_items_scope false).2 !! "path"
     = Some (VStr "/api/items").
Proof. vm_compute. repeat split; reflexivity. Qed.

(** ** Bound methods as endpoints *)

Section BoundMethodFacts.

Variable compile_path : string -> list string.
Variable fuel : nat.

(** X19. [add_route] on a bound method always raises [AttributeError],
    whatever its other arguments: either at [request_schemas.copy()] or at
    the assignment of [_request_schemas], which a bound method does not
    accept; no route is built and the store is as before the call. *)
Theorem add_route_on_bound_method_raises st self path_ endpoint_ f methods_ name_ iis sc
    response_schema request_schemas :
  endpoints st !! endpoint_ = Some (EpMethod f) ->
  add_route compile_path fuel self path_ endpoint_ methods_ name_ iis sc
    response_schema request_schemas st
  = (Raise AttributeError, st).
Proof.
  intros Hep. unfold add_route. unfold_M. rewrite Hep.
  unfold merged_request_schemas. simpl.
  destruct (fn_request_schemas f) as [attached|]; [|done].
  destruct (bool_decide (attached = ∅)); [done|].
  by destruct request_schemas.
Qed.

End BoundMethodFacts.

Lemma add_route_on_bound_method_raises_witness :
  add_route Examples.no_parameters 1 0 "/puppy/" 30 (Some ["GET"]) (Some "puppy-list")
    true 200 None None Examples.store_resource
  = (Raise AttributeError, Examples.store_resource).
Proof.
  apply (add_route_on_bound_method_raises Examples.no_parameters 1
           Examples.store_resource 0 "/puppy/" 30 (Examples.handler_of [])).
  vm_compute; reflexivity.
Defined.

(** C7. [create] carries the override [item: Schema1]; registered as a
    bound method with request schemas for [item] and [note], the call raises
    [AttributeError] at the assignment of the merged schemas: they are not
    written, no route is built, and the store is as before the call. *)
Theorem bound_method_rejects_merged_schemas :
  fn_request_schemas (endpoint_object (EpMethod Examples.create))
  = Some {[ "item" := A_schema 1 ]}
  /\ endpoints Examples.store_bound_create !! 20 = Some (EpMethod Examples.create)
  /\ add_route Examples.no_parameters 1 0 "/items" 20 (Some ["POST"]) None true 201
       None (Some Examples.caller_schemas) Examples.store_bound_create
     = (Raise AttributeError, Examples.store_bound_create).
Proof. vm_compute. repeat split; reflexivity. Qed.

(** C9. The resource [puppy] with its two routes, methods of the resource:
    [add_resource] raises [AttributeError] at the first of them, when
    [add_route] assigns [_request_schemas] to the bound method; no route is
    registered and the store is as before the call. *)
Theorem add_resource_raises_on_bound_methods :
  add_resource Examples.no_parameters 1 0 "/api/" Examples.puppy_resource
    Examples.store_resource
  = (Raise AttributeError, Examples.store_resource).
Proof. vm_compute. reflexivity. Qed.
